(** * Receipt parsing, categorisation, anomaly scoring and forecasting

    A shallow embedding of [services/ocrService.js] (class [OCRService]) and
    of the machine-learning helpers that follow it in the same source file
    (classes [ExpenseCategorizer], [AnomalyDetector], [ExpenseForecaster]),
    with the expense document of the receipt upload route
    ([routes/expenses.js]) and the pagination of [Expense.getUserExpenses].

    Conventions of the embedding.
    - A JavaScript string is the list of its UTF-16 code units.
    - A JavaScript number is, in module [Num], a rational extended with
      [NaN] and the two infinities.  [parseFloat] rounds the decimal it
      reads to the nearest binary64 value ([Num.round64]), so the numbers
      that the receipt parser compares are the numbers of the code; the
      arithmetic of [Num] itself is exact, and so is the arithmetic over the
      reals of [AnomalyDetector] (for [Math.sqrt]).  Zero is unsigned there:
      every divisor that can vanish in this code is a [+0].
    - [AnomalyDetector64] is the anomaly detector over the binary64 numbers
      of the kernel, with the rounding of every operation.
    - A call that can throw returns a [Completion].
    - Regular expressions are kept as syntax trees and run by a backtracking
      matcher that explores alternatives in the priority order of the
      ECMAScript semantics.
    - [String.prototype.toLowerCase], the current date, the number of
      arguments that the engine accepts in one call and the rows returned by
      the database are parameters of the functions that use them. *)

From Stdlib Require Import List Bool Arith NArith ZArith QArith Qround.
From Stdlib Require Import Lia Lra Lqa String Ascii Reals.
From Stdlib Require Floats Uint63.
Import ListNotations.

Set Implicit Arguments.
Local Open Scope bool_scope.
Local Open Scope nat_scope.

(* ------------------------------------------------------------------ *)
(** ** JavaScript strings *)

Module JS.

Definition char := N.
Definition str := list char.

(** An ASCII literal of the source, as code units. *)
Definition lit (s : string) : str :=
  map N_of_ascii (list_ascii_of_string s).
Arguments lit s%_string.

Definition in_range (lo hi c : N) : bool := (lo <=? c)%N && (c <=? hi)%N.

(** [\d] *)
Definition is_digit (c : char) : bool := in_range 48 57 c.

(** [\w] and [\W] *)
Definition is_word (c : char) : bool :=
  is_digit c || in_range 65 90 c || in_range 97 122 c || (c =? 95)%N.
Definition is_nonword (c : char) : bool := negb (is_word c).

(** [\s]: WhiteSpace and LineTerminator code points; the same set is
    stripped by [String.prototype.trim]. *)
Definition is_space (c : char) : bool :=
  in_range 9 13 c || (c =? 32)%N || (c =? 160)%N || (c =? 5760)%N
  || in_range 8192 8202 c || (c =? 8232)%N || (c =? 8233)%N
  || (c =? 8239)%N || (c =? 8287)%N || (c =? 12288)%N || (c =? 65279)%N.

Fixpoint dropwhile (p : char -> bool) (s : str) : str :=
  match s with
  | [] => []
  | c :: s' => if p c then dropwhile p s' else s
  end.

Fixpoint takewhile (p : char -> bool) (s : str) : str :=
  match s with
  | [] => []
  | c :: s' => if p c then c :: takewhile p s' else []
  end.

(** [s.trim()] *)
Definition trim (s : str) : str :=
  rev (dropwhile is_space (rev (dropwhile is_space s))).

(** [s.split(sep)] for a one-character separator. *)
Fixpoint split_chr (sep : char) (s : str) : list str :=
  match s with
  | [] => [[]]
  | c :: s' =>
      if (c =? sep)%N then [] :: split_chr sep s'
      else match split_chr sep s' with
           | [] => [[c]]
           | p :: ps => (c :: p) :: ps
           end
  end.

Fixpoint eqb (a b : str) : bool :=
  match a, b with
  | [], [] => true
  | x :: a', y :: b' => (x =? y)%N && eqb a' b'
  | _, _ => false
  end.

Fixpoint starts_with (w s : str) : bool :=
  match w, s with
  | [], _ => true
  | x :: w', y :: s' => (x =? y)%N && starts_with w' s'
  | _ :: _, [] => false
  end.

(** [s.includes(w)] *)
Fixpoint includes (s w : str) : bool :=
  starts_with w s ||
  match s with
  | [] => false
  | _ :: s' => includes s' w
  end.

(** [s.slice(i, e)] for [i <= e <= s.length]. *)
Definition slice (i e : nat) (s : str) : str := firstn (e - i) (skipn i s).

Definition is_empty (s : str) : bool :=
  match s with [] => true | _ => false end.

(** [a || b] on strings: the empty string is falsy. *)
Definition or_else (a b : str) : str := if is_empty a then b else a.

(** The ASCII part of [toLowerCase]; it agrees with the built-in on every
    string of ASCII code units. *)
Definition ascii_lower (s : str) : str :=
  map (fun c => if in_range 65 90 c then (c + 32)%N else c) s.

End JS.

(* ------------------------------------------------------------------ *)
(** ** Regular expressions *)

Module Regex.
Import JS.

(** The fragment of the ECMAScript pattern language used by the source:
    one-character atoms (literals, classes), concatenation, alternation,
    [?], greedy bounded or unbounded repetition of a one-character atom,
    and the two anchors. *)
Inductive regex : Type :=
| Eps
| Set_ (p : char -> bool)
| Cat (a b : regex)
| Alt (a b : regex)
| Rep (lo : nat) (hi : option nat) (p : char -> bool)
| Bol
| Eol.

Definition Chr (c : char) : regex := Set_ (N.eqb c).
Definition Opt (a : regex) : regex := Alt a Eps.
Definition Star (p : char -> bool) : regex := Rep 0 None p.
Definition Plus (p : char -> bool) : regex := Rep 1 None p.

(** A matcher state: the index reached and the input still to read. *)
Definition state := (nat * str)%type.

(** Greedy repetition of a class: the longest run first, then shorter
    ones down to [lo]. *)
Fixpoint rep (p : char -> bool) (lo : nat) (hi : option nat)
         (i : nat) (s : str) : list state :=
  let stop := match lo with O => [(i, s)] | S _ => [] end in
  match hi with
  | Some O => stop
  | _ =>
      match s with
      | c :: s' =>
          if p c
          then rep p (pred lo) (option_map pred hi) (S i) s' ++ stop
          else stop
      | [] => stop
      end
  end.

(** All the ways [r] can match at a state, most preferred first. *)
Fixpoint run (r : regex) (st : state) : list state :=
  match r with
  | Eps => [st]
  | Set_ p =>
      match snd st with
      | c :: s' => if p c then [(S (fst st), s')] else []
      | [] => []
      end
  | Cat a b => flat_map (run b) (run a st)
  | Alt a b => run a st ++ run b st
  | Rep lo hi p => rep p lo hi (fst st) (snd st)
  | Bol => match fst st with O => [st] | S _ => [] end
  | Eol => match snd st with [] => [st] | _ :: _ => [] end
  end.

(** [RegExp.prototype.exec] without captures: the leftmost start at which
    the pattern matches and the end of the preferred match there. [s] is
    the input from index [i] on. *)
Fixpoint search_from (r : regex) (i : nat) (s : str) : option (nat * nat) :=
  match run r (i, s) with
  | (e, _) :: _ => Some (i, e)
  | [] =>
      match s with
      | [] => None
      | _ :: s' => search_from r (S i) s'
      end
  end.

(** [s.match(r)[0]] for a pattern without the [g] flag; [None] is [null]. *)
Definition str_match (r : regex) (s : str) : option str :=
  match search_from r 0 s with
  | Some (i, e) => Some (slice i e s)
  | None => None
  end.

Fixpoint match_all_from (fuel : nat) (r : regex) (s : str) (last : nat)
  : list str :=
  match fuel with
  | O => []
  | S fuel' =>
      if List.length s <? last then []
      else match search_from r last (skipn last s) with
           | None => []
           | Some (i, e) =>
               slice i e s
               :: match_all_from fuel' r s (if e =? i then S e else e)
           end
  end.

(** [s.match(r)] for a pattern with the [g] flag: every match, scanning
    from [lastIndex]; [None] is [null]. *)
Definition str_match_all (r : regex) (s : str) : option (list str) :=
  match match_all_from (2 + List.length s) r s 0 with
  | [] => None
  | l => Some l
  end.

Fixpoint split_loop (fuel : nat) (r : regex) (s : str) (p q : nat)
  : list str :=
  match fuel with
  | O => [slice p (List.length s) s]
  | S fuel' =>
      if q <? List.length s then
        match run r (q, skipn q s) with
        | (e, _) :: _ =>
            let e := Nat.min e (List.length s) in
            if e =? p then split_loop fuel' r s p (S q)
            else slice p q s :: split_loop fuel' r s e e
        | [] => split_loop fuel' r s p (S q)
        end
      else [slice p (List.length s) s]
  end.

(** [s.split(r)] without a limit, for a pattern without captures: the
    pattern is tried at each index [q] in turn; a match ending at [e]
    closes the piece that began at [p], unless it is empty at [p]. *)
Definition str_split (r : regex) (s : str) : list str :=
  match s with
  | [] => match run r (0, []) with [] => [[]] | _ :: _ => [] end
  | _ :: _ => split_loop (2 * List.length s + 2) r s 0 0
  end.

(** Case-insensitive atom for an ASCII lower-case letter of a pattern with
    the [i] flag (without [u], a non-ASCII code unit never canonicalises
    to an ASCII one). *)
Definition ci (c : char) : char -> bool :=
  fun x => (x =? c)%N || (in_range 97 122 c && (x =? c - 32)%N).

Fixpoint cat_all (l : list regex) : regex :=
  match l with
  | [] => Eps
  | [a] => a
  | a :: l' => Cat a (cat_all l')
  end.

(** A literal word under the [i] flag. *)
Definition ilit (w : string) : regex :=
  cat_all (map (fun c => Set_ (ci c)) (lit w)).
Arguments ilit w%_string.

Fixpoint alt_all (l : list regex) : regex :=
  match l with
  | [] => Eps
  | [a] => a
  | a :: l' => Alt a (alt_all l')
  end.

End Regex.

(* ------------------------------------------------------------------ *)
(** ** Numbers *)

Module Num.

(** A JavaScript number, with exact rationals for the finite values. *)
Inductive jsnum : Type :=
| NaN
| NegInf
| Fin (q : Q)
| PosInf.

Definition of_nat (n : nat) : jsnum := Fin (inject_Z (Z.of_nat n)).

Definition Qltb (x y : Q) : bool := negb (Qle_bool y x).

(** [a < b] *)
Definition ltb (a b : jsnum) : bool :=
  match a, b with
  | NaN, _ | _, NaN => false
  | _, NegInf => false
  | NegInf, _ => true
  | PosInf, _ => false
  | Fin _, PosInf => true
  | Fin x, Fin y => Qltb x y
  end.

(** [a > b] and [a >= b] *)
Definition gtb (a b : jsnum) : bool := ltb b a.
Definition geb (a b : jsnum) : bool :=
  match a, b with
  | NaN, _ | _, NaN => false
  | _, NegInf => true
  | NegInf, _ => false
  | PosInf, _ => true
  | Fin _, PosInf => false
  | Fin x, Fin y => Qle_bool y x
  end.

Definition add (a b : jsnum) : jsnum :=
  match a, b with
  | NaN, _ | _, NaN => NaN
  | PosInf, NegInf | NegInf, PosInf => NaN
  | PosInf, _ | _, PosInf => PosInf
  | NegInf, _ | _, NegInf => NegInf
  | Fin x, Fin y => Fin (x + y)%Q
  end.

Definition neg (a : jsnum) : jsnum :=
  match a with
  | NaN => NaN
  | NegInf => PosInf
  | PosInf => NegInf
  | Fin x => Fin (- x)%Q
  end.

Definition sub (a b : jsnum) : jsnum := add a (neg b).

(** The sign of a number: [Some true] positive, [Some false] negative,
    [None] zero or [NaN]. *)
Definition sign (a : jsnum) : option bool :=
  match a with
  | NaN => None
  | PosInf => Some true
  | NegInf => Some false
  | Fin x => if Qltb 0%Q x then Some true
             else if Qltb x 0%Q then Some false else None
  end.

Definition inf_of (positive : bool) : jsnum :=
  if positive then PosInf else NegInf.

Definition mul (a b : jsnum) : jsnum :=
  match a, b with
  | NaN, _ | _, NaN => NaN
  | Fin x, Fin y => Fin (x * y)%Q
  | _, _ =>
      match sign a, sign b with
      | Some sa, Some sb => inf_of (Bool.eqb sa sb)
      | _, _ => NaN
      end
  end.

Definition div (a b : jsnum) : jsnum :=
  match a, b with
  | NaN, _ | _, NaN => NaN
  | Fin x, Fin y =>
      if Qeq_bool y 0%Q
      then match sign a with Some sa => inf_of sa | None => NaN end
      else Fin (x / y)%Q
  | Fin _, _ => Fin 0%Q
  | _, Fin _ =>
      match sign a, sign b with
      | Some sa, Some sb => inf_of (Bool.eqb sa sb)
      | Some sa, None => inf_of sa
      | _, _ => NaN
      end
  | _, _ => NaN
  end.

(** [Math.max(a, b)] and [Math.min(a, b)] *)
Definition max2 (a b : jsnum) : jsnum :=
  match a, b with
  | NaN, _ | _, NaN => NaN
  | _, _ => if ltb a b then b else a
  end.
Definition min2 (a b : jsnum) : jsnum :=
  match a, b with
  | NaN, _ | _, NaN => NaN
  | _, _ => if ltb b a then b else a
  end.

(** The value of [Math.max(...l)]: the greatest argument, [-Infinity]
    without arguments.  The call itself, which can throw, is
    [OCRService.Math_max_spread]. *)
Definition Math_max (l : list jsnum) : jsnum := fold_left max2 l NegInf.

(** Equality of values ([Q] is a setoid). *)
Definition eqv (a b : jsnum) : Prop :=
  match a, b with
  | NaN, NaN | NegInf, NegInf | PosInf, PosInf => True
  | Fin x, Fin y => (x == y)%Q
  | _, _ => False
  end.

Definition is_finite (a : jsnum) : bool :=
  match a with Fin _ => true | _ => false end.

(** The integer nearest to [a / b], for [b > 0]; a tie goes to the even
    one. *)
Definition round_div (a b : Z) : Z :=
  let q := (a / b)%Z in
  match (2 * (a mod b) ?= b)%Z with
  | Lt => q
  | Gt => (q + 1)%Z
  | Eq => if Z.even q then q else (q + 1)%Z
  end.

(** [2 ^ e] as a fraction: numerator and denominator. *)
Definition pow2_up (e : Z) : Z := if (0 <=? e)%Z then (2 ^ e)%Z else 1%Z.
Definition pow2_down (e : Z) : Z := if (0 <=? e)%Z then 1%Z else (2 ^ (- e))%Z.

(** The binary64 value of the positive rational [n / d]: with [fl] the
    binary exponent of [n / d] and [e = max (fl - 52) (-1074)] the exponent
    of the last place (-1074 in the subnormal range), the significand is
    [n / d / 2 ^ e] rounded to the nearest integer, ties to even; a result
    of [2 ^ 1024] or more is [+Infinity]. *)
Definition round64_pos (n d : positive) : jsnum :=
  let k := (Z.log2 (Zpos n) - Z.log2 (Zpos d))%Z in
  let fl := if (Zpos d * pow2_up k <=? Zpos n * pow2_down k)%Z
            then k else (k - 1)%Z in
  let e := Z.max (fl - 52) (-1074) in
  let m := round_div (Zpos n * pow2_down e) (Zpos d * pow2_up e) in
  if (2 ^ 1024 * pow2_down e <=? m * pow2_up e)%Z then PosInf
  else Fin (Qmake (m * pow2_up e) (Z.to_pos (pow2_down e))).

(** The Number value of a rational: the nearest binary64 value. *)
Definition round64 (q : Q) : jsnum :=
  match Qnum q with
  | Z0 => Fin 0
  | Zpos n => round64_pos n (Qden q)
  | Zneg n => neg (round64_pos n (Qden q))
  end.

End Num.

(* ------------------------------------------------------------------ *)
(** ** Completions *)

(** How a call ends: it returns a value or it throws. *)
Inductive Exception : Type := RangeError.

Inductive Completion (A : Type) : Type :=
| Returns (a : A)
| Throws (e : Exception).
Arguments Returns {A} a.
Arguments Throws {A} e.

(* ------------------------------------------------------------------ *)
(** ** [OCRService.parseReceiptData] *)

Module OCRService.
Import JS Regex Num.

Record ParsedReceipt : Type := {
  merchant : str;
  amount : jsnum;
  date : str;
  items : list str;
  rawText : str
}.

(** The dollar sign, the rupee sign (U+20B9), the euro sign (U+20AC) and
    the pound sign (U+00A3). *)
Definition dollar : char := 36%N.
Definition rupee : char := 8377%N.
Definition euro : char := 8364%N.
Definition pound : char := 163%N.
Definition dot : char := 46%N.

(** [amountPattern], with the [g] flag: an optional group of one currency
    sign, then [\s*], then the group [\d+ \.? \d*]. *)
Definition amountPattern : regex :=
  cat_all [ Opt (alt_all [Chr dollar; Chr rupee; Chr euro; Chr pound]);
            Star is_space;
            Plus is_digit; Opt (Chr dot); Star is_digit ].

(** [[\/\-]] *)
Definition is_date_sep (c : char) : bool := (c =? 47)%N || (c =? 45)%N.

(** [/(\d{1,2}[\/\-]\d{1,2}[\/\-]\d{2,4})|(\d{4}[\/\-]\d{1,2}[\/\-]\d{1,2})/] *)
Definition datePattern : regex :=
  Alt (cat_all [ Rep 1 (Some 2) is_digit; Set_ is_date_sep;
                 Rep 1 (Some 2) is_digit; Set_ is_date_sep;
                 Rep 2 (Some 4) is_digit ])
      (cat_all [ Rep 4 (Some 4) is_digit; Set_ is_date_sep;
                 Rep 1 (Some 2) is_digit; Set_ is_date_sep;
                 Rep 1 (Some 2) is_digit ]).

Definition businessWords : list str :=
  map lit [ "restaurant"; "cafe"; "store"; "shop"; "market"; "pharmacy";
            "gas"; "station" ]%string.

Definition nonItemWords : list string :=
  [ "total"; "subtotal"; "tax"; "discount"; "amount"; "date"; "time";
    "receipt"; "thank"; "you" ]%string.

(** [/^(total|subtotal|tax|discount|amount|date|time|receipt|thank|you)/i] *)
Definition nonItemPattern : regex :=
  Cat Bol (alt_all (map ilit nonItemWords)).

(** The class of [numericPattern]: [\d], [\s], the four currency signs
    and the dot. *)
Definition is_numeric_char (c : char) : bool :=
  is_digit c || is_space c || (c =? dollar)%N || (c =? rupee)%N
  || (c =? euro)%N || (c =? pound)%N || (c =? dot)%N.

(** The class above, one or more times, between [^] and [$]. *)
Definition numericPattern : regex :=
  cat_all [Bol; Plus is_numeric_char; Eol].

Definition matches (r : regex) (s : str) : bool :=
  match str_match r s with Some _ => true | None => false end.

(** [match.replace(/[^\d.]/g, '')] *)
Definition strip_non_numeric (s : str) : str :=
  filter (fun c => is_digit c || (c =? dot)%N) s.

Definition digits_value (ds : str) : N :=
  fold_left (fun acc c => (10 * acc + (c - 48))%N) ds 0%N.

(** [parseFloat] on the alphabet that reaches it here, digits and dots
    (after leading white space): the longest prefix that is a decimal
    literal, [NaN] when there is none.  The result is the Number value of
    the decimal: the nearest binary64 value, [+Infinity] from about 1.8e308
    on. *)
Definition parseFloat (s : str) : jsnum :=
  let s := dropwhile is_space s in
  let ip := takewhile is_digit s in
  match dropwhile is_digit s with
  | c :: rest =>
      let fp := if (c =? dot)%N then takewhile is_digit rest else [] in
      if is_empty ip && is_empty fp then NaN
      else round64 (Qmake (Z.of_N (digits_value (ip ++ fp)))
                          (Z.to_pos (10 ^ Z.of_nat (List.length fp))))
  | [] =>
      if is_empty ip then NaN
      else round64 (inject_Z (Z.of_N (digits_value ip)))
  end.

(** [lines]: split at line feeds, trim, drop the empty lines. *)
Definition lines_of (text : str) : list str :=
  filter (fun line => 0 <? List.length line) (map trim (split_chr 10%N text)).

(** The values pushed to [amounts] for one line. *)
Definition line_amounts (line : str) : list jsnum :=
  match str_match_all amountPattern line with
  | Some ms =>
      filter (fun num => gtb num (Fin 0%Q))
             (map (fun m => parseFloat (strip_non_numeric m)) ms)
  | None => []
  end.

Definition collect_amounts (lines : list str) : list jsnum :=
  flat_map line_amounts lines.

(** The first line with a date, as the loop with [break] finds it. *)
Fixpoint find_date (lines : list str) : str :=
  match lines with
  | [] => []
  | line :: rest =>
      match str_match datePattern line with
      | Some d => d
      | None => find_date rest
      end
  end.

(** One turn of the items loop. *)
Definition item_step (items : list str) (line : str) : list str :=
  if matches nonItemPattern line then items
  else if matches numericPattern line then items
  else if List.length line <? 3 then items
  else if (3 <? List.length line) && (List.length line <? 100)
       then items ++ [line]
       else items.

Definition collect_items (lines : list str) : list str :=
  fold_left item_step lines [].

Definition unknown_merchant : str := lit "Unknown Merchant".

Section Parser.
(** [String.prototype.toLowerCase],
    [new Date().toISOString().split('T')[0]], and the greatest number of
    arguments that the engine accepts in one call (it depends on the engine
    and on the room left on its stack). *)
Variable toLowerCase : str -> str.
Variable today : str.
Variable max_arguments : nat.

Definition merchant_like (line : str) : bool :=
  existsb (fun word => includes (toLowerCase line) word) businessWords
  || ((5 <? List.length line) && (List.length line <? 50)).

Fixpoint find_merchant (lines : list str) : str :=
  match lines with
  | [] => []
  | line :: rest =>
      if merchant_like line then line else find_merchant rest
  end.

(** The object that [parseReceiptData] returns, when it returns. *)
Definition parseReceiptData (text : str) : ParsedReceipt :=
  let lines := lines_of text in
  let merchant := find_merchant (firstn 5 lines) in
  let amounts := collect_amounts lines in
  let amount :=
    if 0 <? List.length amounts then Math_max amounts else Fin 0%Q in
  let date := find_date lines in
  let items := collect_items lines in
  {| merchant := or_else merchant unknown_merchant;
     amount := amount;
     date := or_else date today;
     items := firstn 10 items;
     rawText := text |}.

(** [Math.max(...amounts)]: the spread passes every element of the array
    as an argument of the call, which throws a RangeError when there are
    more of them than the engine accepts. *)
Definition Math_max_spread (l : list jsnum) : Completion jsnum :=
  if max_arguments <? List.length l then Throws RangeError
  else Returns (Math_max l).

(** The call [parseReceiptData(text)], with the one statement of the body
    that can throw. *)
Definition parseReceiptData_call (text : str) : Completion ParsedReceipt :=
  let lines := lines_of text in
  let merchant := find_merchant (firstn 5 lines) in
  let amounts := collect_amounts lines in
  match (if 0 <? List.length amounts then Math_max_spread amounts
         else Returns (Fin 0%Q)) with
  | Throws e => Throws e
  | Returns amount =>
      let date := find_date lines in
      let items := collect_items lines in
      Returns {| merchant := or_else merchant unknown_merchant;
                 amount := amount;
                 date := or_else date today;
                 items := firstn 10 items;
                 rawText := text |}
  end.
End Parser.

End OCRService.


(* ------------------------------------------------------------------ *)
(** ** [ExpenseCategorizer] *)

Module ExpenseCategorizer.
Import JS Regex Num.

Inductive Category : Type :=
| food | transport | utilities | entertainment
| shopping | healthcare | education | other.

Definition Category_eqb (a b : Category) : bool :=
  match a, b with
  | food, food | transport, transport | utilities, utilities
  | entertainment, entertainment | shopping, shopping
  | healthcare, healthcare | education, education | other, other => true
  | _, _ => false
  end.

(** [this.categories], in insertion order. *)
Definition categories : list (Category * list str) :=
  [ (food, map lit
       [ "restaurant"; "cafe"; "food"; "dining"; "lunch"; "dinner";
         "breakfast"; "coffee"; "pizza"; "burger"; "sushi"; "chinese";
         "indian"; "mexican"; "grocery"; "supermarket"; "market" ]%string);
    (transport, map lit
       [ "uber"; "lyft"; "taxi"; "gas"; "fuel"; "parking"; "metro"; "bus";
         "train"; "flight"; "airline"; "car"; "vehicle";
         "transportation" ]%string);
    (utilities, map lit
       [ "electric"; "water"; "gas"; "internet"; "phone"; "cable";
         "utility"; "bill"; "payment"; "service" ]%string);
    (entertainment, map lit
       [ "movie"; "cinema"; "theater"; "concert"; "show"; "game"; "gaming";
         "netflix"; "spotify"; "subscription"; "entertainment";
         "fun" ]%string);
    (shopping, map lit
       [ "amazon"; "store"; "shop"; "mall"; "clothing"; "clothes"; "shoes";
         "electronics"; "book"; "purchase"; "buy" ]%string);
    (healthcare, map lit
       [ "doctor"; "hospital"; "clinic"; "pharmacy"; "medicine"; "medical";
         "health"; "dental"; "vision"; "insurance" ]%string);
    (education, map lit
       [ "school"; "university"; "college"; "course"; "book"; "education";
         "learning"; "tuition"; "student" ]%string);
    (other, []) ].

(** [this.categories[category] || []] *)
Definition keywords_of (category : Category) : list str :=
  match find (fun entry => Category_eqb (fst entry) category) categories with
  | Some entry => snd entry
  | None => []
  end.

Record CategoryScore : Type := {
  category : Category;
  confidence : jsnum
}.

(** The amount bands of the fallback. *)
Definition fallback_category (amount : jsnum) : Category :=
  if ltb amount (Fin 20) then food
  else if ltb amount (Fin 100) then shopping
  else if ltb amount (Fin 500) then utilities
  else other.

Section Categorizer.
Variable toLowerCase : str -> str.

(** [text.toLowerCase().split(/\W+/).filter(word => word.length > 2)] *)
Definition words_of (text : str) : list str :=
  filter (fun word => 2 <? List.length word)
         (str_split (Plus is_nonword) (toLowerCase text)).

Definition calculateTFIDF (text : str) (category : Category) : jsnum :=
  let words := words_of text in
  let categoryKeywords := keywords_of category in
  let score :=
    fold_left
      (fun score word =>
         if existsb (eqb word) categoryKeywords
         then add score (Fin 1) else score)
      words (Fin 0) in
  div score (of_nat (List.length words)).

(** The template literal of [categorize], lower-cased. *)
Definition text_of (expenseName notes : str) : str :=
  toLowerCase (expenseName ++ lit " " ++ notes).

(** One turn of the loop over [Object.entries(this.categories)]; the
    state is [(bestCategory, bestScore)]. *)
Definition score_step (text : str) (amount : jsnum)
           (best : Category * jsnum) (entry : Category * list str)
  : Category * jsnum :=
  let category := fst entry in
  if Category_eqb category other then best
  else
    let score := calculateTFIDF text category in
    let score :=
      if Category_eqb category food && ltb amount (Fin 100)
      then add score (Fin 0.1) else score in
    let score :=
      if Category_eqb category transport && ltb amount (Fin 50)
      then add score (Fin 0.1) else score in
    let score :=
      if Category_eqb category utilities && gtb amount (Fin 50)
      then add score (Fin 0.1) else score in
    if gtb score (snd best) then (category, score) else best.

(** [(bestCategory, bestScore)] when the loop ends. *)
Definition best_match (expenseName : str) (amount : jsnum) (notes : str)
  : Category * jsnum :=
  fold_left (score_step (text_of expenseName notes) amount)
            categories (other, Fin 0).

(** The test that guards the amount-band fallback. *)
Definition uses_fallback (expenseName : str) (amount : jsnum) (notes : str)
  : bool :=
  ltb (snd (best_match expenseName amount notes)) (Fin 0.1).

Definition categorize (expenseName : str) (amount : jsnum) (notes : str)
  : CategoryScore :=
  let best := best_match expenseName amount notes in
  let bestScore := snd best in
  let bestCategory :=
    if ltb bestScore (Fin 0.1) then fallback_category amount
    else fst best in
  {| category := bestCategory;
     confidence := min2 (mul bestScore (Fin 2)) (Fin 1.0) |}.
End Categorizer.

End ExpenseCategorizer.

(* ------------------------------------------------------------------ *)
(** ** Database reads *)

(** What awaiting a query gives: the promise rejects, or building the query
    throws (the [catch] block runs), or it resolves to the rows. *)
Inductive DbResult (A : Type) : Type :=
| Rejected
| Rows (rows : list A).
Arguments Rejected {A}.
Arguments Rows {A} rows.

(* ------------------------------------------------------------------ *)
(** ** [AnomalyDetector] *)

Module AnomalyDetector.

(** Numbers over the reals, for [Math.sqrt]. *)
Inductive rnum : Type :=
| RNaN
| RNegInf
| RFin (r : R)
| RPosInf.

(** [a / b] for finite operands. *)
Definition rdiv (a b : R) : rnum :=
  if Req_dec_T b 0%R then
    if Req_dec_T a 0%R then RNaN
    else if Rlt_dec 0%R a then RPosInf else RNegInf
  else RFin (a / b)%R.

(** [Math.abs] *)
Definition rabs (a : rnum) : rnum :=
  match a with
  | RNaN => RNaN
  | RNegInf | RPosInf => RPosInf
  | RFin r => RFin (Rabs r)
  end.

(** [a > b] for a finite [b]. *)
Definition rgtb (a : rnum) (b : R) : bool :=
  match a with
  | RNaN | RNegInf => false
  | RPosInf => true
  | RFin r => if Rlt_dec b r then true else false
  end.

(** A row of the [Expense] collection, as far as the detector reads it;
    the schema stores a finite number. *)
Record Expense : Type := { exp_amount : R }.

Inductive Reason : Type :=
| InsufficientData
| NormalSpendingPattern
| Deviates (amount : R) (zScore : rnum) (mean : R)
| DetectionFailed.

Record AnomalyResult : Type := {
  isAnomaly : bool;
  zScore : option rnum;
  mean : option R;
  stdDev : option R;
  reason : Reason
}.

(** [amounts.reduce((sum, val) => sum + val, 0) / amounts.length] *)
Definition mean_of (amounts : list R) : R :=
  (fold_left (fun sum val => sum + val) amounts 0 / INR (List.length amounts))%R.

Definition variance_of (amounts : list R) : R :=
  let mean := mean_of amounts in
  (fold_left (fun sum val => sum + (val - mean) ^ 2) amounts 0
   / INR (List.length amounts))%R.

(** [query] is what [Expense.find] with the user, the category and the
    90-day window, sorted by date, resolves to. *)
Definition detectAnomalies (query : DbResult Expense) (amount : R)
  : AnomalyResult :=
  match query with
  | Rejected =>
      {| isAnomaly := false; zScore := None; mean := None; stdDev := None;
         reason := DetectionFailed |}
  | Rows expenses =>
      if List.length expenses <? 5 then
        {| isAnomaly := false; zScore := None; mean := None;
           stdDev := None; reason := InsufficientData |}
      else
        let amounts := map exp_amount expenses in
        let mean := mean_of amounts in
        let variance := variance_of amounts in
        let stdDev := sqrt variance in
        let zScore := rabs (rdiv (amount - mean) stdDev) in
        let isAnomaly := rgtb zScore 2.5%R in
        {| isAnomaly := isAnomaly;
           zScore := Some zScore;
           mean := Some mean;
           stdDev := Some stdDev;
           reason := if isAnomaly then Deviates amount zScore mean
                     else NormalSpendingPattern |}
  end.

End AnomalyDetector.

(* ------------------------------------------------------------------ *)
(** ** [AnomalyDetector] over binary64 numbers *)

Module AnomalyDetector64.
Import PrimFloat.
Local Open Scope float_scope.

(** A row of the [Expense] collection, as far as the detector reads it. *)
Record Expense : Type := { exp_amount : float }.

Inductive Reason : Type :=
| InsufficientData
| NormalSpendingPattern
| Deviates (amount zScore mean : float)
| DetectionFailed.

Record AnomalyResult : Type := {
  isAnomaly : bool;
  zScore : option float;
  mean : option float;
  stdDev : option float;
  reason : Reason
}.

(** The length of an array as a number (an array has fewer than [2 ^ 32]
    elements). *)
Definition of_nat (n : nat) : float := of_uint63 (Uint63.of_Z (Z.of_nat n)).

(** [amounts.reduce((sum, val) => sum + val, 0) / amounts.length] *)
Definition mean_of (amounts : list float) : float :=
  fold_left (fun sum val => sum + val) amounts 0 / of_nat (List.length amounts).

(** [Math.pow(x, 2)] is taken to be the rounded square [x * x]. *)
Definition variance_of (amounts : list float) : float :=
  let mean := mean_of amounts in
  fold_left (fun sum val => sum + (val - mean) * (val - mean)) amounts 0
  / of_nat (List.length amounts).

(** [query] is what [Expense.find] with the user, the category and the
    90-day window, sorted by date, resolves to. *)
Definition detectAnomalies (query : DbResult Expense) (amount : float)
  : AnomalyResult :=
  match query with
  | Rejected =>
      {| isAnomaly := false; zScore := None; mean := None; stdDev := None;
         reason := DetectionFailed |}
  | Rows expenses =>
      if (List.length expenses <? 5)%nat then
        {| isAnomaly := false; zScore := None; mean := None;
           stdDev := None; reason := InsufficientData |}
      else
        let amounts := map exp_amount expenses in
        let mean := mean_of amounts in
        let variance := variance_of amounts in
        let stdDev := sqrt variance in
        let zScore := abs ((amount - mean) / stdDev) in
        let isAnomaly := 2.5 <? zScore in
        {| isAnomaly := isAnomaly;
           zScore := Some zScore;
           mean := Some mean;
           stdDev := Some stdDev;
           reason := if isAnomaly then Deviates amount zScore mean
                     else NormalSpendingPattern |}
  end.


End AnomalyDetector64.

(* ------------------------------------------------------------------ *)
(** ** [ExpenseForecaster] *)

Module ExpenseForecaster.
Import Num.

(** A row of the aggregation: [_id.year], [_id.month] (1 to 12) and
    [total], a finite sum. *)
Record Bucket : Type := { year : Z; month : Z; total : Q }.

Inductive Confidence : Type := low | medium | high.

(** A [Date] object that holds the first day of a month at midnight, local
    time: [Some k] is the month of rank [k] counted from January of the
    year 0, [None] the invalid date (its time value is [NaN]).  A time
    value lies within 8.64e15 ms of the epoch, from 20 April -271821 to
    13 September 275760 (UTC); whatever the time zone, the first days of
    the months from May -271821 to September 275760 are therefore the
    valid ones. *)
Definition Date : Type := option Z.

Definition in_time_range (k : Z) : bool :=
  (-271821 * 12 + 4 <=? k)%Z && (k <=? 275760 * 12 + 8)%Z.

Definition make_date (k : Z) : Date :=
  if in_time_range k then Some k else None.

(** [new Date(year, monthIndex)]: a year from 0 to 99 stands for
    1900 + year. *)
Definition new_Date (year monthIndex : Z) : Date :=
  let year :=
    if (0 <=? year)%Z && (year <=? 99)%Z then (1900 + year)%Z else year in
  make_date (year * 12 + monthIndex).

(** [d.setMonth(d.getMonth() + i)] *)
Definition setMonth_plus (d : Date) (i : nat) : Date :=
  match d with
  | Some k => make_date (k + Z.of_nat i)
  | None => None
  end.

(** [d.toISOString()] throws a RangeError on an invalid date.  Of the
    string only the month is kept, as the year and the zero-based month of
    the local date; its rendering in UTC is not modelled. *)
Definition toISOString (d : Date) : Completion (Z * Z) :=
  match d with
  | Some k => Returns ((k / 12)%Z, (k mod 12)%Z)
  | None => Throws RangeError
  end.

Record ForecastPoint : Type := {
  fmonth : Z * Z;
  predictedAmount : jsnum
}.

Record ForecastResult : Type := {
  forecast : list ForecastPoint;
  confidence : Confidence
}.

Definition sum (l : list jsnum) : jsnum :=
  fold_left (fun sum val => add sum val) l (Fin 0).

(** [x.reduce((sum, val, i) => sum + val * y[i], 0)]; the lists have the
    same length here. *)
Definition sum_xy (x y : list jsnum) : jsnum :=
  fold_left (fun sum vi => add sum (mul (fst vi) (nth (snd vi) y NaN)))
            (combine x (seq 0 (List.length x))) (Fin 0).

Definition slope_of (y : list jsnum) : jsnum :=
  let n := of_nat (List.length y) in
  let x := map of_nat (seq 0 (List.length y)) in
  let sumX := sum x in
  let sumY := sum y in
  let sumXY := sum_xy x y in
  let sumXX := sum (map (fun val => mul val val) x) in
  div (sub (mul n sumXY) (mul sumX sumY))
      (sub (mul n sumXX) (mul sumX sumX)).

Definition intercept_of (y : list jsnum) : jsnum :=
  let n := of_nat (List.length y) in
  let x := map of_nat (seq 0 (List.length y)) in
  div (sub (sum y) (mul (slope_of y) (sum x))) n.

(** The loop that fills [forecast], for the values [todo] of [i] still to
    come; an exception leaves the loop. *)
Fixpoint forecast_loop (slope intercept : jsnum) (n : nat) (lastDate : Date)
         (todo : list nat) : Completion (list ForecastPoint) :=
  match todo with
  | [] => Returns []
  | i :: rest =>
      let predictedAmount := add (mul slope (of_nat (n + i - 1))) intercept in
      let forecastDate := setMonth_plus lastDate i in
      match toISOString forecastDate with
      | Throws e => Throws e
      | Returns month =>
          match forecast_loop slope intercept n lastDate rest with
          | Throws e => Throws e
          | Returns points =>
              Returns ({| fmonth := month;
                          predictedAmount := max2 (Fin 0) predictedAmount |}
                       :: points)
          end
      end
  end.

(** [query] is what [Expense.aggregate] with the match, group and sort
    stages resolves to.  An exception thrown in the [try] block is caught
    and gives the result of the [catch] block. *)
Definition forecastExpenses (query : DbResult Bucket) (months : nat)
  : ForecastResult :=
  match query with
  | Rejected => {| forecast := []; confidence := low |}
  | Rows expenses =>
      if List.length expenses <? 3 then
        {| forecast := []; confidence := low |}
      else
        let data :=
          map (fun exp => (new_Date (year exp) (month exp - 1),
                           Fin (total exp)))
              expenses in
        let n := List.length data in
        let y := map snd data in
        let slope := slope_of y in
        let intercept := intercept_of y in
        let lastDate := fst (last data (None, NaN)) in
        match forecast_loop slope intercept n lastDate (seq 1 months) with
        | Throws _ => {| forecast := []; confidence := low |}
        | Returns forecast =>
            {| forecast := forecast;
               confidence :=
                 if 6 <=? n then high else if 3 <=? n then medium else low |}
        end
  end.

End ExpenseForecaster.

(* ------------------------------------------------------------------ *)
(** ** The receipt upload route and the pagination of the expense list *)

Module ExpenseRoutes.
Import JS Num OCRService.

(** [x || 0] on numbers: [NaN] and zero are falsy. *)
Definition or_zero (x : jsnum) : jsnum :=
  match x with
  | NaN => Fin 0
  | Fin q => if Qeq_bool q 0 then Fin 0 else x
  | _ => x
  end.

(** [Math.min(Math.max(parseFloat(amount) || 0, 0), 999999.99)]; on a
    number [parseFloat] gives the number back. *)
Definition clampAmount (amount : jsnum) : jsnum :=
  min2 (max2 (or_zero amount) (Fin 0)) (Fin 999999.99).

(** [items.join(sep)] *)
Fixpoint join (sep : str) (items : list str) : str :=
  match items with
  | [] => []
  | item :: rest =>
      match rest with
      | [] => item
      | _ :: _ => item ++ sep ++ join sep rest
      end
  end.

(** The document that the upload route saves.  [dateArg] is the argument
    given to the [Date] constructor ([None] for [new Date()]); how the
    constructor reads it is not modelled. *)
Record ExpenseDoc : Type := {
  userId : N;
  name : str;
  doc_amount : jsnum;
  doc_category : ExpenseCategorizer.Category;
  dateArg : option str;
  notes : str;
  receiptImageUrl : str;
  ocrData : ParsedReceipt
}.

(** The [new Expense({...})] of [POST /upload-receipt]. *)
Definition receiptExpense (user : N) (path : str) (ocr : ParsedReceipt)
  : ExpenseDoc :=
  {| userId := user;
     name := or_else (merchant ocr) (lit "Unknown Merchant");
     doc_amount := clampAmount (amount ocr);
     doc_category := ExpenseCategorizer.other;
     dateArg := if is_empty (date ocr) then None else Some (date ocr);
     notes := join (lit ", ") (items ocr);
     receiptImageUrl := path;
     ocrData := ocr |}.

(** [Math.ceil] *)
Definition ceil (x : jsnum) : jsnum :=
  match x with
  | Fin q => Fin (inject_Z (Qceiling q))
  | _ => x
  end.

(** The [pagination] object of [getUserExpenses] and the [skip] of its
    query, for integer [page], [limit] and [total]. *)
Record Pagination : Type := {
  page : Z;
  limit : Z;
  total : Z;
  pages : jsnum
}.

Definition skip_of (page limit : Z) : Z := ((page - 1) * limit)%Z.

Definition pagination_of (page limit total : Z) : Pagination :=
  {| page := page;
     limit := limit;
     total := total;
     pages := ceil (div (Fin (inject_Z total)) (Fin (inject_Z limit))) |}.

End ExpenseRoutes.

(* ------------------------------------------------------------------ *)
(** ** Notions used in the statements *)

Import JS Regex Num OCRService.

(** The words of a pattern, anchors read as the empty word. *)
Inductive lang : regex -> str -> Prop :=
| lang_eps : lang Eps []
| lang_set p c : p c = true -> lang (Set_ p) [c]
| lang_cat a b u v : lang a u -> lang b v -> lang (Cat a b) (u ++ v)
| lang_alt_l a b u : lang a u -> lang (Alt a b) u
| lang_alt_r a b u : lang b u -> lang (Alt a b) u
| lang_rep lo hi p u :
    Forall (fun c => p c = true) u -> lo <= List.length u ->
    lang (Rep lo hi p) u
| lang_bol : lang Bol []
| lang_eol : lang Eol [].

(** The numeric tokens of a receipt: the value of every match of
    [amountPattern], over all the lines. *)
Definition token_values (text : str) : list jsnum :=
  flat_map
    (fun line =>
       match str_match_all amountPattern line with
       | Some ms => map (fun m => parseFloat (strip_non_numeric m)) ms
       | None => []
       end)
    (lines_of text).

(** [m] is the maximum of a non-empty list of numbers. *)
Definition is_maximum_of (m : jsnum) (vs : list jsnum) : Prop :=
  Forall (fun v => geb m v = true) vs /\ Exists (fun v => eqv m v) vs.

(** A finite number that is not negative; a number that is not negative:
    such a finite number or [+Infinity]. *)
Definition nonneg_fin (v : jsnum) : Prop := exists q, v = Fin q /\ (0 <= q)%Q.

Definition nonneg (v : jsnum) : Prop := v = PosInf \/ nonneg_fin v.

(** The values that the parser pushes to [amounts]: those of the tokens
    that are greater than 0. *)
Definition positive_values (text : str) : list jsnum :=
  filter (fun num => gtb num (Fin 0)) (token_values text).

(** A receipt of [k] lines that read [1]. *)
Fixpoint receipt_of_ones (k : nat) : str :=
  match k with
  | O => []
  | S k' => lit "1" ++ [10%N] ++ receipt_of_ones k'
  end.

(** [Math.max] on two rationals, and the amount that the parser derives
    from the values of the tokens. *)
Definition Qmax2 (x y : Q) : Q := if Qltb x y then y else x.

Definition amount_of (vs : list jsnum) : jsnum :=
  let amounts := filter (fun num => gtb num (Fin 0)) vs in
  if 0 <? List.length amounts then Math_max amounts else Fin 0.

(** The fields of a date string, and the test that the string denotes a
    calendar date: three numeric fields which, read as day/month/year,
    month/day/year or year/month/day, have a month from 1 to 12 and a day
    from 1 to 31.  The length of each month is not checked, so a string
    rejected here is a date in no calendar reading. *)
Definition date_fields (s : str) : list str := str_split (Set_ is_date_sep) s.

Definition field_in (hi : N) (f : str) : bool :=
  negb (is_empty f) && forallb is_digit f
  && (1 <=? digits_value f)%N && (digits_value f <=? hi)%N.

Definition calendar_date (s : str) : bool :=
  match date_fields s with
  | [a; b; c] =>
      (field_in 31 a && field_in 12 b)
      || (field_in 12 a && field_in 31 b)
      || (field_in 12 b && field_in 31 c)
  | _ => false
  end.

(** The lines that the items loop keeps. *)
Definition item_kept (line : str) : bool :=
  negb (matches nonItemPattern line)
  && negb (matches numericPattern line)
  && (3 <? List.length line) && (List.length line <? 100).

(** Agreement of two reals up to a tolerance. *)
Definition approx (tol x y : R) : Prop := (Rabs (x - y) <= tol)%R.

(** Strictly increasing totals. *)
Fixpoint increasing (qs : list Q) : Prop :=
  match qs with
  | [] => True
  | a :: rest =>
      match rest with
      | [] => True
      | b :: _ => (a < b)%Q /\ increasing rest
      end
  end.

(** The history of the anomaly example: five expenses of 10, 12, 11, 13
    and 9. *)
Definition history : list AnomalyDetector.Expense :=
  map AnomalyDetector.Build_Expense [10; 12; 11; 13; 9]%R.

(** Six monthly buckets, June to November 2025, with the totals 1, 2, 3,
    4, 5 and 100. *)
Definition bucket (m : Z) (t : Q) : ExpenseForecaster.Bucket :=
  {| ExpenseForecaster.year := 2025;
     ExpenseForecaster.month := m;
     ExpenseForecaster.total := t |}.

Definition spike_rows : list ExpenseForecaster.Bucket :=
  [ bucket 6 1; bucket 7 2; bucket 8 3; bucket 9 4; bucket 10 5;
    bucket 11 100 ].

(* ------------------------------------------------------------------ *)
(** ** Notions used in the further properties *)

(** No white space at either end of a string. *)
Definition no_space_at_ends (l : str) : bool :=
  match l with [] => true | c :: _ => negb (is_space c) end
  && match rev l with [] => true | c :: _ => negb (is_space c) end.

(** The longest word of a pattern, when it is bounded. *)
Fixpoint max_len (r : regex) : option nat :=
  match r with
  | Eps | Bol | Eol => Some 0
  | Set_ _ => Some 1
  | Cat a b =>
      match max_len a, max_len b with
      | Some m, Some n => Some (m + n)
      | _, _ => None
      end
  | Alt a b =>
      match max_len a, max_len b with
      | Some m, Some n => Some (Nat.max m n)
      | _, _ => None
      end
  | Rep _ hi _ => hi
  end.

(** The shape of a string that [datePattern] matches. *)
Definition date_shaped (d : str) : Prop :=
  6 <= List.length d <= 10
  /\ Forall (fun c => is_digit c || is_date_sep c = true) d
  /\ List.length (filter is_date_sep d) = 2.

(** The sums of the regression, over the integers. *)
Fixpoint sum_idx (n : nat) : Z :=
  match n with
  | O => 0
  | S m => sum_idx m + Z.of_nat m
  end.

Fixpoint sum_idx2 (n : nat) : Z :=
  match n with
  | O => 0
  | S m => sum_idx2 m + Z.of_nat m * Z.of_nat m
  end.

(** The state of the scoring loop: a finite best score, at least [lo], and
    positive as soon as a category was chosen. *)
Definition best_ok (lo : Q) (best : ExpenseCategorizer.Category * jsnum)
  : Prop :=
  exists b, snd best = Fin b /\ (lo <= b)%Q
            /\ (fst best = ExpenseCategorizer.other -> (b <= 0)%Q).

(** [f 0 + ... + f (n - 1)], added from the left as [reduce] does. *)
Fixpoint qsum (f : nat -> Q) (n : nat) : Q :=
  match n with
  | O => 0
  | S m => qsum f m + f m
  end.

(** The index [i] as a rational. *)
Definition ix (i : nat) : Q := inject_Z (Z.of_nat i).

(** A bucket used as the default of [last] and [nth]: January of year 0
    with total 0. *)
Definition bucket0 : ExpenseForecaster.Bucket :=
  {| ExpenseForecaster.year := 0;
     ExpenseForecaster.month := 1;
     ExpenseForecaster.total := 0 |}.

(** The prediction for the value [x] of the index, from the totals [ys]. *)
Definition predict (ys : list Q) (x : nat) : jsnum :=
  max2 (Fin 0)
       (add (mul (ExpenseForecaster.slope_of (map Fin ys)) (of_nat x))
            (ExpenseForecaster.intercept_of (map Fin ys))).

(** The month of a bucket, counted from January of the year 0; [Date]
    reads a year from 0 to 99 as 1900 + year. *)
Definition bucket_month (b : ExpenseForecaster.Bucket) : Z :=
  let y := ExpenseForecaster.year b in
  ((if (0 <=? y)%Z && (y <=? 99)%Z then 1900 + y else y) * 12
   + (ExpenseForecaster.month b - 1))%Z.

(** The dates of a forecast of [months] months after the bucket [b] are
    valid: there is none, or the month of [b] is not before May -271821
    (month -3261848) and the month that comes [months] months later is not
    after September 275760 (month 3309128). *)
Definition forecast_dates_valid (b : ExpenseForecaster.Bucket) (months : nat)
  : bool :=
  (months =? 0)
  || ((-3261848 <=? bucket_month b)%Z
      && (bucket_month b + Z.of_nat months <=? 3309128)%Z).

(** The year and the zero-based month of the date [i] months after the
    bucket [b]. *)
Definition month_after (b : ExpenseForecaster.Bucket) (i : nat) : Z * Z :=
  (((bucket_month b + Z.of_nat i) / 12)%Z,
   ((bucket_month b + Z.of_nat i) mod 12)%Z).

(** The value at the index 6 of the least-squares line through six totals
    at the indices 0 to 5. *)
Definition line_at_six (y0 y1 y2 y3 y4 y5 : Q) : Q :=
  ((10 * y5 + 7 * y4 + 4 * y3 + y2 - 2 * y1 - 5 * y0) / 15)%Q.

(** Six monthly buckets that end in September of the year 275760, the last
    month that a [Date] can hold. *)
Definition late_rows : list ExpenseForecaster.Bucket :=
  map (fun m => {| ExpenseForecaster.year := 275760;
                   ExpenseForecaster.month := m;
                   ExpenseForecaster.total := 100 |})
      [4; 5; 6; 7; 8; 9]%Z.


(** Case analysis on the matcher call that heads the hypothesis [H]. *)
Ltac destruct_run H :=
  match type of H with
  | context [run ?r ?st] =>
      let e0 := fresh "e0" in
      let s0 := fresh "s0" in
      let l := fresh "l" in
      destruct (run r st) as [|[e0 s0] l] eqn:Hrun
  end.

(** Settles a test [d = 0] on a closed divisor [d] by computation. *)
Ltac decide_zero_test :=
  match goal with
  | |- context [Qeq_bool ?d 0] =>
      let b := eval vm_compute in (Qeq_bool d 0) in
      change (Qeq_bool d 0) with b
  end; cbv iota.

(* ------------------------------------------------------------------ *)
(** ** Items of a receipt *)

Lemma fold_item_step (lines : list str) :
  forall acc, fold_left item_step lines acc = acc ++ filter item_kept lines.
Proof.
  induction lines as [|line rest IH]; intros acc; simpl.
  - now rewrite app_nil_r.
  - rewrite IH. unfold item_step, item_kept.
    destruct (matches nonItemPattern line); simpl; [reflexivity|].
    destruct (matches numericPattern line); simpl; [reflexivity|].
    destruct (List.length line <? 3) eqn:Hshort.
    + apply Nat.ltb_lt in Hshort.
      replace (3 <? List.length line) with false
        by (symmetry; apply Nat.ltb_ge; lia).
      reflexivity.
    + destruct ((3 <? List.length line) && (List.length line <? 100)); simpl.
      * now rewrite <- app_assoc.
      * reflexivity.
Qed.

Lemma collect_items_filter (lines : list str) :
  collect_items lines = filter item_kept lines.
Proof. unfold collect_items. now rewrite fold_item_step. Qed.

(** C5. The items are the first ten lines, in order, that do not start with
    a non-item keyword, are not made of digits, currency signs, dots and
    white space only, and are 4 to 99 code units long.  A line of exactly 3
    code units passes the [length < 3] guard and is then dropped by the
    [length > 3] test: the line [Tea] is such a line and yields no item. *)
Theorem C5_three_char_line_dropped :
  (forall toLowerCase today text,
      items (parseReceiptData toLowerCase today text)
      = firstn 10 (filter item_kept (lines_of text)))
  /\ (let line := lit "Tea" in
      lines_of line = [line]
      /\ List.length line = 3
      /\ matches nonItemPattern line = false
      /\ matches numericPattern line = false
      /\ forall toLowerCase today,
          items (parseReceiptData toLowerCase today line) = []).
Proof.
  split.
  - intros. unfold parseReceiptData; simpl. now rewrite collect_items_filter.
  - repeat split; reflexivity.
Qed.

(* ------------------------------------------------------------------ *)
(** ** Categorizer *)

Import ExpenseCategorizer.

(** C8, as the spec states it, is false: for [("xyz123", 15, "")] the best
    score is 0.1 (the bonus of [food]), which is not below 0.1, so the
    amount-band fallback is not the rule that gives [food]. *)
Lemma C8_fallback_not_used :
  ~ (category (categorize ascii_lower (lit "xyz123") (Fin 15) []) = food
     /\ uses_fallback ascii_lower (lit "xyz123") (Fin 15) [] = true).
Proof. intros [_ H]. vm_compute in H. discriminate. Qed.

(** C8, amended. [categorize("xyz123", 15, "")] returns [food] with
    confidence 0.2: no keyword matches, every keyword score is 0, the bonus
    for an amount under 100 lifts [food] to 0.1, the first strict maximum,
    and the fallback test [bestScore < 0.1] is false. *)
Theorem C8_xyz123_is_food_by_bonus :
  let name := lit "xyz123" in
  categorize ascii_lower name (Fin 15) []
  = {| category := food; confidence := Fin 0.2 |}
  /\ Forall (fun c => calculateTFIDF ascii_lower
                       (text_of ascii_lower name []) c = Fin 0)
            [food; transport; utilities; entertainment; shopping;
             healthcare; education]
  /\ best_match ascii_lower name (Fin 15) [] = (food, Fin 0.1)
  /\ uses_fallback ascii_lower name (Fin 15) [] = false.
Proof. repeat split; repeat constructor. Qed.

Section NoWords.
Variable toLowerCase : str -> str.
Variable text : str.
Hypothesis no_words : words_of toLowerCase text = [].



End NoWords.



(* ------------------------------------------------------------------ *)
(** ** Insufficient history *)

(** C6. With fewer than 5 rows from the 90-day query the detector answers
    [isAnomaly = false] with no z-score (nor mean, nor deviation), for the
    reason "Insufficient data"; a rejected query gives [isAnomaly = false]
    too.  The function returns a result on every input. *)
Theorem C6_insufficient_history
        (rows : list AnomalyDetector.Expense) (amount : R) :
  List.length rows < 5 ->
  AnomalyDetector.detectAnomalies (Rows rows) amount
  = {| AnomalyDetector.isAnomaly := false;
       AnomalyDetector.zScore := None;
       AnomalyDetector.mean := None;
       AnomalyDetector.stdDev := None;
       AnomalyDetector.reason := AnomalyDetector.InsufficientData |}
  /\ AnomalyDetector.isAnomaly
       (AnomalyDetector.detectAnomalies Rejected amount) = false.
Proof.
  intros H. split; [|reflexivity].
  unfold AnomalyDetector.detectAnomalies.
  apply Nat.ltb_lt in H. now rewrite H.
Qed.

Lemma C6_witness :
  let rows := map AnomalyDetector.Build_Expense [10; 12; 11; 13]%R in
  List.length rows < 5
  /\ AnomalyDetector.isAnomaly
       (AnomalyDetector.detectAnomalies (Rows rows) 1000%R) = false.
Proof.
  intros rows. split; [simpl; lia|].
  destruct (C6_insufficient_history rows 1000%R) as [H _]; [simpl; lia|].
  rewrite H. reflexivity.
Defined.

(** C7. With fewer than 3 monthly buckets (two, for instance) the forecast
    is empty and the confidence is [low]; so it is when the aggregation is
    rejected. *)
Theorem C7_too_few_buckets
        (rows : list ExpenseForecaster.Bucket) (months : nat) :
  List.length rows < 3 ->
  ExpenseForecaster.forecastExpenses (Rows rows) months
  = {| ExpenseForecaster.forecast := [];
       ExpenseForecaster.confidence := ExpenseForecaster.low |}
  /\ ExpenseForecaster.forecastExpenses Rejected months
     = {| ExpenseForecaster.forecast := [];
          ExpenseForecaster.confidence := ExpenseForecaster.low |}.
Proof.
  intros H. split; [|reflexivity].
  unfold ExpenseForecaster.forecastExpenses.
  apply Nat.ltb_lt in H. now rewrite H.
Qed.

Lemma C7_witness :
  let rows :=
    [ {| ExpenseForecaster.year := 2025; ExpenseForecaster.month := 11;
         ExpenseForecaster.total := 120 |};
      {| ExpenseForecaster.year := 2025; ExpenseForecaster.month := 12;
         ExpenseForecaster.total := 340.5 |} ] in
  List.length rows < 3
  /\ ExpenseForecaster.forecastExpenses (Rows rows) 3
     = {| ExpenseForecaster.forecast := [];
          ExpenseForecaster.confidence := ExpenseForecaster.low |}.
Proof.
  intros rows. split; [simpl; lia|].
  destruct (C7_too_few_buckets rows 3) as [H _]; [simpl; lia|].
  exact H.
Defined.

(* ------------------------------------------------------------------ *)
(** ** Soundness of the matcher *)

Lemma rep_sound (p : char -> bool) (s : str) :
  forall lo hi i e s',
    In (e, s') (rep p lo hi i s) ->
    exists w, s = w ++ s' /\ e = i + List.length w
              /\ Forall (fun c => p c = true) w /\ lo <= List.length w.
Proof.
  induction s as [|c s IH]; intros lo hi i e s' Hin.
  - assert (Hstop : In (e, s') (match lo with O => [(i, [])] | S _ => [] end)).
    { destruct hi as [[|h]|]; exact Hin. }
    destruct lo; simpl in Hstop; [|contradiction].
    destruct Hstop as [H|[]]. inversion H; subst.
    exists []. repeat split; auto.
  - assert (Hcases :
              In (e, s') (match lo with O => [(i, c :: s)] | S _ => [] end)
              \/ (p c = true
                  /\ In (e, s') (rep p (pred lo) (option_map pred hi) (S i) s))).
    { simpl in Hin. destruct hi as [[|h]|]; [now left| |];
        (destruct (p c); [|now left]);
        (apply in_app_or in Hin; destruct Hin as [Hin|Hin];
         [right; split; [reflexivity|exact Hin] | now left]). }
    destruct Hcases as [Hstop|[Hp Hrec]].
    + destruct lo; simpl in Hstop; [|contradiction].
      destruct Hstop as [H|[]]. inversion H; subst.
      exists []. repeat split; auto.
    + apply IH in Hrec. destruct Hrec as (w & -> & -> & Hall & Hlo).
      exists (c :: w). simpl. repeat split; auto; lia.
Qed.

Lemma run_sound (r : regex) :
  forall i s e s',
    In (e, s') (run r (i, s)) ->
    exists w, s = w ++ s' /\ e = i + List.length w /\ lang r w.
Proof.
  induction r as [|p|a IHa b IHb|a IHa b IHb|lo hi p| |];
    intros i s e s' Hin; simpl in Hin.
  - destruct Hin as [H|[]]. inversion H; subst.
    exists []. repeat split; auto. constructor.
  - destruct s as [|c s]; [contradiction|].
    destruct (p c) eqn:Hp; [|contradiction].
    destruct Hin as [H|[]]. inversion H; subst.
    exists [c]. simpl. repeat split; auto; [lia|now constructor].
  - apply in_flat_map in Hin. destruct Hin as ([e1 s1] & H1 & H2).
    apply IHa in H1. destruct H1 as (u & -> & -> & Hu).
    apply IHb in H2. destruct H2 as (v & -> & -> & Hv).
    exists (u ++ v). rewrite <- app_assoc, length_app.
    repeat split; auto; [lia|now constructor].
  - apply in_app_or in Hin. destruct Hin as [H|H].
    + apply IHa in H. destruct H as (u & -> & -> & Hu).
      exists u. repeat split; auto. now apply lang_alt_l.
    + apply IHb in H. destruct H as (u & -> & -> & Hu).
      exists u. repeat split; auto. now apply lang_alt_r.
  - apply rep_sound in Hin. destruct Hin as (w & -> & -> & Hall & Hlo).
    exists w. repeat split; auto. now constructor.
  - destruct i; [|contradiction]. destruct Hin as [H|[]]. inversion H; subst.
    exists []. repeat split; auto. constructor.
  - destruct s; [|contradiction]. destruct Hin as [H|[]]. inversion H; subst.
    exists []. repeat split; auto. constructor.
Qed.

Lemma search_from_eq (r : regex) (i : nat) (s : str) :
  search_from r i s
  = match run r (i, s) with
    | (e, _) :: _ => Some (i, e)
    | [] => match s with
            | [] => None
            | _ :: s' => search_from r (S i) s'
            end
    end.
Proof. destruct s; reflexivity. Qed.

Lemma search_sound (r : regex) (s : str) :
  forall i i' e,
    search_from r i s = Some (i', e) ->
    exists pre w s', s = pre ++ w ++ s' /\ i' = i + List.length pre
                     /\ e = i' + List.length w /\ lang r w.
Proof.
  induction s as [|c s IH]; intros i i' e H; rewrite search_from_eq in H.
  - destruct_run H; [discriminate|].
    pose proof (run_sound r i [] e0 s0) as Hs. rewrite Hrun in Hs.
    destruct (Hs (or_introl eq_refl)) as (w & Hw1 & Hw2 & Hw).
    inversion H; subst.
    exists [], w, s0. simpl. repeat split; auto.
  - destruct_run H.
    + apply IH in H. destruct H as (pre & w & s' & -> & -> & -> & Hw).
      exists (c :: pre), w, s'. simpl. repeat split; auto; lia.
    + pose proof (run_sound r i (c :: s) e0 s0) as Hs. rewrite Hrun in Hs.
      destruct (Hs (or_introl eq_refl)) as (w & Hw1 & Hw2 & Hw).
      inversion H; subst.
      exists [], w, s0. simpl. repeat split; auto.
Qed.

Lemma skipn_length_app {A : Type} (a b : list A) :
  skipn (List.length a) (a ++ b) = b.
Proof. induction a; simpl; auto. Qed.

Lemma firstn_length_app {A : Type} (a b : list A) :
  firstn (List.length a) (a ++ b) = a.
Proof. induction a; simpl; auto. now f_equal. Qed.

Lemma slice_found (s : str) (last : nat) (pre w s' : str) :
  last <= List.length s ->
  skipn last s = pre ++ w ++ s' ->
  slice (last + List.length pre)
        (last + List.length pre + List.length w) s = w.
Proof.
  intros Hlast Hskip. unfold slice.
  replace (last + List.length pre + List.length w - (last + List.length pre))
    with (List.length w) by lia.
  rewrite Nat.add_comm, <- skipn_skipn, Hskip, skipn_length_app.
  apply firstn_length_app.
Qed.

Lemma str_match_sound (r : regex) (s m : str) :
  str_match r s = Some m -> lang r m.
Proof.
  unfold str_match. destruct (search_from r 0 s) as [[i e]|] eqn:H;
    [|discriminate].
  intros Hm. inversion Hm; subst. clear Hm.
  apply search_sound in H. destruct H as (pre & w & s' & Hs & -> & -> & Hw).
  rewrite (@slice_found s 0 pre w s'); [exact Hw|lia|exact Hs].
Qed.

Lemma match_all_sound (r : regex) (s : str) (fuel : nat) :
  forall last m, In m (match_all_from fuel r s last) -> lang r m.
Proof.
  induction fuel as [|fuel IH]; intros last m Hin; simpl in Hin;
    [contradiction|].
  destruct (List.length s <? last) eqn:Hlen; [contradiction|].
  apply Nat.ltb_ge in Hlen.
  destruct (search_from r last (skipn last s)) as [[i e]|] eqn:H;
    [|contradiction].
  destruct Hin as [Hm|Hin]; [|now apply IH in Hin].
  apply search_sound in H. destruct H as (pre & w & s' & Hs & -> & -> & Hw).
  rewrite (@slice_found s last pre w s') in Hm; [now subst|lia|exact Hs].
Qed.

Lemma str_match_all_sound (r : regex) (s : str) (ms : list str) :
  str_match_all r s = Some ms -> Forall (lang r) ms.
Proof.
  unfold str_match_all. intros H. apply Forall_forall. intros m Hin.
  apply (match_all_sound r s (2 + List.length s) 0).
  destruct (match_all_from (2 + List.length s) r s 0); [discriminate|].
  now inversion H; subst.
Qed.

(* ------------------------------------------------------------------ *)
(** ** The amount of a receipt *)

Lemma lang_cat_inv (a b : regex) (w : str) :
  lang (Cat a b) w -> exists u v, w = u ++ v /\ lang a u /\ lang b v.
Proof. intros H. inversion H; subst. eauto. Qed.

Lemma lang_alt_inv (a b : regex) (w : str) :
  lang (Alt a b) w -> lang a w \/ lang b w.
Proof. intros H. inversion H; subst; auto. Qed.

Lemma lang_set_inv (p : char -> bool) (w : str) :
  lang (Set_ p) w -> exists c, w = [c] /\ p c = true.
Proof. intros H. inversion H; subst. eauto. Qed.

Lemma lang_rep_inv (lo : nat) (hi : option nat) (p : char -> bool) (w : str) :
  lang (Rep lo hi p) w ->
  Forall (fun c => p c = true) w /\ lo <= List.length w.
Proof. intros H. inversion H; subst. auto. Qed.

Lemma lang_eps_inv (w : str) : lang Eps w -> w = [].
Proof. intros H. now inversion H. Qed.

Lemma space_not_numeric (c : char) :
  is_space c = true -> is_digit c || (c =? dot)%N = false.
Proof.
  intros H. unfold is_space, is_digit, in_range, dot in *.
  destruct ((48 <=? c)%N && (c <=? 57)%N || (c =? 46)%N) eqn:E;
    [exfalso|reflexivity].
  rewrite ?orb_true_iff, ?andb_true_iff, ?N.leb_le, ?N.eqb_eq in *. lia.
Qed.

Lemma digit_not_space (c : char) : is_digit c = true -> is_space c = false.
Proof.
  intros H. destruct (is_space c) eqn:E; [|reflexivity].
  apply space_not_numeric in E. rewrite H in E. discriminate.
Qed.

Lemma strip_spaces (w : str) :
  Forall (fun c => is_space c = true) w -> strip_non_numeric w = [].
Proof.
  induction 1 as [|c w Hc _ IH]; [reflexivity|].
  unfold strip_non_numeric in *. simpl.
  now rewrite (space_not_numeric c Hc).
Qed.

(** A match of [amountPattern] keeps, once stripped, a leading digit. *)
Lemma amount_match_digit (w : str) :
  lang amountPattern w ->
  exists d rest, strip_non_numeric w = d :: rest /\ is_digit d = true.
Proof.
  intros H. unfold amountPattern in H. cbn [cat_all] in H.
  apply lang_cat_inv in H. destruct H as (cur & w1 & -> & Hcur & H).
  apply lang_cat_inv in H. destruct H as (sp & w2 & -> & Hsp & H).
  apply lang_cat_inv in H. destruct H as (d1 & w3 & -> & Hd1 & _).
  apply lang_rep_inv in Hsp. destruct Hsp as [Hsp _].
  apply lang_rep_inv in Hd1. destruct Hd1 as [Hd1 Hlen].
  destruct d1 as [|d d1]; [simpl in Hlen; lia|].
  assert (Hd : is_digit d = true) by now inversion Hd1.
  assert (Hc : strip_non_numeric cur = []).
  { apply lang_alt_inv in Hcur. destruct Hcur as [Hcur|Hcur].
    - cbn [alt_all] in Hcur.
      repeat (apply lang_alt_inv in Hcur; destruct Hcur as [Hcur|Hcur]);
        apply lang_set_inv in Hcur; destruct Hcur as (c & -> & Hc);
        apply N.eqb_eq in Hc; subst c; reflexivity.
    - apply lang_eps_inv in Hcur. now subst. }
  exists d, (strip_non_numeric (d1 ++ w3)).
  split; [|exact Hd].
  pose proof (strip_spaces Hsp) as Hs.
  unfold strip_non_numeric in *.
  rewrite !filter_app, Hc, Hs. simpl.
  rewrite Hd. reflexivity.
Qed.

Lemma round_div_nonneg (a b : Z) :
  (0 <= a)%Z -> (0 < b)%Z -> (0 <= round_div a b)%Z.
Proof.
  intros Ha Hb. unfold round_div.
  pose proof (Z.div_pos a b Ha Hb) as Hq.
  destruct (2 * (a mod b) ?= b)%Z; [destruct (Z.even (a / b))| |]; lia.
Qed.

Lemma pow2_up_pos (e : Z) : (0 < pow2_up e)%Z.
Proof.
  unfold pow2_up. destruct (0 <=? e)%Z eqn:E; [|lia].
  apply Z.pow_pos_nonneg; [lia|now apply Z.leb_le].
Qed.

Lemma pow2_down_pos (e : Z) : (0 < pow2_down e)%Z.
Proof.
  unfold pow2_down. destruct (0 <=? e)%Z eqn:E; [lia|].
  apply Z.pow_pos_nonneg; [lia|]. apply Z.leb_gt in E. lia.
Qed.

(** Rounding keeps a number that is not negative so. *)
Lemma round64_pos_nonneg (n d : positive) : nonneg (round64_pos n d).
Proof.
  unfold round64_pos.
  set (k := (Z.log2 (Zpos n) - Z.log2 (Zpos d))%Z).
  set (fl := if (Zpos d * pow2_up k <=? Zpos n * pow2_down k)%Z
             then k else (k - 1)%Z).
  set (e := Z.max (fl - 52) (-1074)).
  set (m := round_div (Zpos n * pow2_down e) (Zpos d * pow2_up e)).
  assert (Hm : (0 <= m)%Z).
  { pose proof (pow2_up_pos e). pose proof (pow2_down_pos e).
    apply round_div_nonneg; nia. }
  destruct (2 ^ 1024 * pow2_down e <=? m * pow2_up e)%Z; [now left|right].
  eexists. split; [reflexivity|].
  unfold Qle. cbn [Qnum Qden].
  pose proof (pow2_up_pos e). nia.
Qed.

Lemma round64_nonneg (q : Q) : (0 <= Qnum q)%Z -> nonneg (round64 q).
Proof.
  intros Hq. unfold round64. destruct (Qnum q) as [|n|n].
  - right. exists 0%Q. split; [reflexivity|apply Qle_refl].
  - apply round64_pos_nonneg.
  - lia.
Qed.

Lemma parseFloat_digit (d : char) (rest : str) :
  is_digit d = true -> nonneg (parseFloat (d :: rest)).
Proof.
  intros Hd. unfold parseFloat. cbn [dropwhile takewhile].
  rewrite (digit_not_space d Hd). cbn [dropwhile takewhile]. rewrite Hd.
  destruct (dropwhile is_digit rest) as [|c r]; cbn [is_empty andb];
    apply round64_nonneg; cbn [Qnum inject_Z]; apply N2Z.is_nonneg.
Qed.

Lemma token_values_nonneg (text : str) : Forall nonneg (token_values text).
Proof.
  apply Forall_forall. intros v Hin. unfold token_values in Hin.
  apply in_flat_map in Hin. destruct Hin as (line & _ & Hin).
  destruct (str_match_all amountPattern line) as [ms|] eqn:Hms;
    [|contradiction].
  apply in_map_iff in Hin. destruct Hin as (m & <- & Hm).
  apply str_match_all_sound in Hms.
  rewrite Forall_forall in Hms. specialize (Hms m Hm).
  apply amount_match_digit in Hms. destruct Hms as (d & rest & -> & Hd).
  now apply parseFloat_digit.
Qed.

Lemma flat_map_filter {A B : Type} (p : B -> bool) (f : A -> list B)
      (l : list A) :
  flat_map (fun x => filter p (f x)) l = filter p (flat_map f l).
Proof.
  induction l as [|x l IH]; simpl; [reflexivity|].
  now rewrite filter_app, IH.
Qed.

Lemma collect_amounts_eq (text : str) :
  collect_amounts (lines_of text) = positive_values text.
Proof.
  unfold collect_amounts, positive_values, token_values.
  rewrite <- flat_map_filter.
  apply flat_map_ext. intros line. unfold line_amounts.
  now destruct (str_match_all amountPattern line).
Qed.

Lemma amount_eq (toLowerCase : str -> str) (today text : str) :
  amount (parseReceiptData toLowerCase today text)
  = amount_of (token_values text).
Proof.
  unfold parseReceiptData, amount_of; simpl.
  now rewrite collect_amounts_eq.
Qed.

(** The call throws exactly when the positive values outnumber the
    arguments that the engine accepts, and returns the receipt otherwise. *)
Lemma call_outcome (toLowerCase : str -> str) (today : str)
      (max_arguments : nat) (text : str) :
  parseReceiptData_call toLowerCase today max_arguments text
  = if max_arguments <? List.length (positive_values text)
    then Throws RangeError
    else Returns (parseReceiptData toLowerCase today text).
Proof.
  unfold parseReceiptData_call, parseReceiptData, Math_max_spread.
  rewrite collect_amounts_eq.
  destruct (positive_values text) as [|v vs]; [reflexivity|].
  change (0 <? List.length (v :: vs)) with true. cbv iota.
  now destruct (max_arguments <? List.length (v :: vs)).
Qed.

Lemma Qltb_lt (x y : Q) : Qltb x y = true <-> (x < y)%Q.
Proof.
  unfold Qltb. rewrite negb_true_iff. split.
  - intros H. apply Qnot_le_lt. intros Hle.
    apply Qle_bool_iff in Hle. congruence.
  - intros H. destruct (Qle_bool y x) eqn:E; [|reflexivity].
    apply Qle_bool_iff in E. exfalso. exact (Qlt_not_le _ _ H E).
Qed.

Lemma Qltb_ge (x y : Q) : Qltb x y = false <-> (y <= x)%Q.
Proof.
  unfold Qltb. rewrite negb_false_iff. apply Qle_bool_iff.
Qed.

Lemma fold_max_fin (qs : list Q) :
  forall a, fold_left max2 (map Fin qs) (Fin a) = Fin (fold_left Qmax2 qs a).
Proof.
  induction qs as [|q qs IH]; intros a; simpl; [reflexivity|].
  rewrite <- IH. f_equal. unfold Qmax2. now destruct (Qltb a q).
Qed.

Lemma Qmax2_ub (x y : Q) : (x <= Qmax2 x y)%Q /\ (y <= Qmax2 x y)%Q.
Proof.
  unfold Qmax2. destruct (Qltb x y) eqn:E.
  - apply Qltb_lt in E. split; [now apply Qlt_le_weak|apply Qle_refl].
  - apply Qltb_ge in E. split; [apply Qle_refl|exact E].
Qed.

Lemma qfold_ub (qs : list Q) :
  forall a, (a <= fold_left Qmax2 qs a)%Q
            /\ Forall (fun q => (q <= fold_left Qmax2 qs a)%Q) qs.
Proof.
  induction qs as [|q qs IH]; intros a; simpl.
  - split; [apply Qle_refl|constructor].
  - destruct (IH (Qmax2 a q)) as [H1 H2].
    destruct (Qmax2_ub a q) as [Ha Hq].
    split; [eapply Qle_trans; eauto|].
    constructor; [eapply Qle_trans; eauto|exact H2].
Qed.

Lemma qfold_in (qs : list Q) :
  forall a, fold_left Qmax2 qs a = a \/ In (fold_left Qmax2 qs a) qs.
Proof.
  induction qs as [|q qs IH]; intros a; simpl; [now left|].
  destruct (IH (Qmax2 a q)) as [H|H]; [|now right; right].
  rewrite H. unfold Qmax2. destruct (Qltb a q); [right; now left|now left].
Qed.

Lemma filter_positive_fin (qs : list Q) :
  filter (fun num => gtb num (Fin 0)) (map Fin qs)
  = map Fin (filter (Qltb 0) qs).
Proof.
  induction qs as [|q qs IH]; [reflexivity|].
  cbn [map filter]. rewrite IH.
  change (gtb (Fin q) (Fin 0)) with (Qltb 0 q).
  now destruct (Qltb 0 q).
Qed.

Lemma nonneg_fin_list (vs : list jsnum) :
  Forall nonneg_fin vs ->
  exists qs, vs = map Fin qs /\ Forall (fun q => (0 <= q)%Q) qs.
Proof.
  induction 1 as [|v vs (q & -> & Hq) _ (qs & -> & Hqs)].
  - exists []. split; [reflexivity|constructor].
  - exists (q :: qs). split; [reflexivity|now constructor].
Qed.

(** The amount is 0 or above, and it is the maximum of the token values
    (0 when there is none): first for finite values. *)
Lemma amount_of_max_fin (vs : list jsnum) :
  Forall nonneg_fin vs ->
  geb (amount_of vs) (Fin 0) = true
  /\ ((vs = [] /\ amount_of vs = Fin 0) \/ is_maximum_of (amount_of vs) vs).
Proof.
  intros Hvs. apply nonneg_fin_list in Hvs. destruct Hvs as (qs & -> & Hqs).
  unfold amount_of. rewrite filter_positive_fin.
  rewrite Forall_forall in Hqs.
  destruct (filter (Qltb 0) qs) as [|p ps] eqn:Hf.
  - simpl. split; [reflexivity|].
    assert (Hle : forall q, In q qs -> (q <= 0)%Q).
    { intros q Hin. apply Qltb_ge.
      destruct (Qltb 0 q) eqn:E; [|reflexivity].
      assert (Hq : In q (filter (Qltb 0) qs)) by (apply filter_In; auto).
      rewrite Hf in Hq. contradiction. }
    destruct qs as [|q qs]; [now left|right]. split.
    + apply Forall_forall. intros v Hv. apply in_map_iff in Hv.
      destruct Hv as (q0 & <- & Hq0). simpl.
      apply Qle_bool_iff. now apply Hle.
    + apply Exists_cons_hd. simpl.
      apply Qle_antisym; [apply Hqs|apply Hle]; now left.
  - cbn [List.length map Nat.ltb Nat.leb]. unfold Math_max.
    cbn [map fold_left]. change (max2 NegInf (Fin p)) with (Fin p).
    rewrite fold_max_fin. set (m := fold_left Qmax2 ps p).
    destruct (qfold_ub ps p) as [Hp Hps]. fold m in Hp, Hps.
    rewrite Forall_forall in Hps.
    assert (Hpos : (0 < p)%Q).
    { apply Qltb_lt.
      assert (Hin : In p (filter (Qltb 0) qs)) by (rewrite Hf; now left).
      apply filter_In in Hin. tauto. }
    split.
    + simpl. apply Qle_bool_iff. apply Qlt_le_weak.
      eapply Qlt_le_trans; eauto.
    + right. split.
      * apply Forall_forall. intros v Hv. apply in_map_iff in Hv.
        destruct Hv as (q & <- & Hq). simpl. apply Qle_bool_iff.
        destruct (Qltb 0 q) eqn:E.
        -- assert (Hin : In q (filter (Qltb 0) qs))
             by (apply filter_In; auto).
           rewrite Hf in Hin. destruct Hin as [<-|Hin]; auto.
        -- apply Qltb_ge in E. apply Qlt_le_weak.
           eapply Qle_lt_trans; [exact E|].
           eapply Qlt_le_trans; eauto.
      * apply Exists_exists. exists (Fin m). split; [|simpl; apply Qeq_refl].
        apply in_map.
        assert (Hin : In m (filter (Qltb 0) qs)).
        { rewrite Hf. destruct (qfold_in ps p) as [H|H]; fold m in H.
          - left. now symmetry.
          - now right. }
        apply filter_In in Hin. tauto.
Qed.

(** With [+Infinity] among the values. *)
Lemma nonneg_split (vs : list jsnum) :
  Forall nonneg vs -> In PosInf vs \/ Forall nonneg_fin vs.
Proof.
  induction 1 as [|v vs [->|Hv] _ [IH|IH]].
  - right. constructor.
  - left. now left.
  - left. now left.
  - left. now right.
  - right. now constructor.
Qed.

Lemma max2_nonneg (a v : jsnum) :
  a = NegInf \/ nonneg a -> nonneg v -> nonneg (max2 a v).
Proof.
  intros [->|[->|(x & -> & Hx)]] [->|(y & -> & Hy)]; simpl;
    try (now left); try (right; now exists y).
  unfold ltb. destruct (Qltb x y); right; [now exists y|now exists x].
Qed.

Lemma max2_posinf_r (a : jsnum) :
  a = NegInf \/ nonneg a -> max2 a PosInf = PosInf.
Proof. now intros [->|[->|(x & -> & Hx)]]. Qed.

Lemma fold_max_posinf (l : list jsnum) :
  Forall nonneg l -> fold_left max2 l PosInf = PosInf.
Proof.
  induction 1 as [|v l [->|(y & -> & Hy)] _ IH]; simpl; auto.
Qed.

Lemma fold_max_reaches_posinf (l : list jsnum) :
  Forall nonneg l -> In PosInf l ->
  forall a, a = NegInf \/ nonneg a -> fold_left max2 l a = PosInf.
Proof.
  induction 1 as [|v l Hv Hl IH]; intros Hin a Ha; [contradiction|].
  cbn [fold_left]. destruct Hin as [->|Hin].
  - rewrite (max2_posinf_r Ha). now apply fold_max_posinf.
  - apply IH; [exact Hin|]. right. now apply max2_nonneg.
Qed.

Lemma amount_of_posinf (vs : list jsnum) :
  Forall nonneg vs -> In PosInf vs -> amount_of vs = PosInf.
Proof.
  intros Hvs Hin. unfold amount_of.
  set (amounts := filter (fun num => gtb num (Fin 0)) vs).
  assert (Hin' : In PosInf amounts) by (apply filter_In; now split).
  assert (Hall : Forall nonneg amounts).
  { apply Forall_forall. intros v Hv. apply filter_In in Hv.
    rewrite Forall_forall in Hvs. now apply Hvs. }
  destruct amounts as [|p ps]; [contradiction|].
  cbn [List.length Nat.ltb Nat.leb]. unfold Math_max.
  apply fold_max_reaches_posinf; auto.
Qed.

(** The amount is 0 or above, and it is the maximum of the token values
    (0 when there is none). *)
Lemma amount_of_max (vs : list jsnum) :
  Forall nonneg vs ->
  geb (amount_of vs) (Fin 0) = true
  /\ ((vs = [] /\ amount_of vs = Fin 0) \/ is_maximum_of (amount_of vs) vs).
Proof.
  intros Hvs. destruct (nonneg_split Hvs) as [Hin|Hfin];
    [|now apply amount_of_max_fin].
  rewrite (amount_of_posinf Hvs Hin). split; [reflexivity|right]. split.
  - apply Forall_forall. intros v Hv. rewrite Forall_forall in Hvs.
    now destruct (Hvs v Hv) as [->|(y & -> & Hy)].
  - apply Exists_exists. exists PosInf. now split.
Qed.

(** C2. Every numeric token of a receipt has a value that is not negative,
    a finite binary64 number or [+Infinity].  The call throws a RangeError
    when the positive values outnumber the arguments that the engine
    accepts; otherwise it returns a receipt whose amount is the maximum of
    the values of the tokens over all the lines: it is at least every value
    and equal to one of them, and it is 0 when there is no token.  For the
    lines [Total $45.00] and [Subtotal $40.00] the amount is 45; a token
    of 401 digits has the value [+Infinity], which is then the amount; the
    tokens [9007199254740993], [9007199254740995] and [0.1] have the values
    9007199254740992, 9007199254740996 and 3602879701896397 / 2 ^ 55. *)
Theorem C2_amount_is_max_token
        (toLowerCase : str -> str) (today : str) (max_arguments : nat)
        (text : str) :
  Forall nonneg (token_values text)
  /\ match parseReceiptData_call toLowerCase today max_arguments text with
     | Throws e =>
         e = RangeError
         /\ max_arguments < List.length (positive_values text)
     | Returns r =>
         List.length (positive_values text) <= max_arguments
         /\ ((token_values text = [] /\ amount r = Fin 0)
             \/ is_maximum_of (amount r) (token_values text))
     end
  /\ (let receipt := lit "Total $45.00" ++ [10%N] ++ lit "Subtotal $40.00" in
      Forall2 eqv (token_values receipt) [Fin 45.00; Fin 40.00]
      /\ (2 <= max_arguments ->
          exists r,
            parseReceiptData_call toLowerCase today max_arguments receipt
            = Returns r
            /\ eqv (amount r) (Fin 45)))
  /\ (let receipt := lit "1" ++ repeat 48%N 400 in
      token_values receipt = [PosInf]
      /\ (1 <= max_arguments ->
          exists r,
            parseReceiptData_call toLowerCase today max_arguments receipt
            = Returns r
            /\ amount r = PosInf))
  /\ Forall2 eqv
       (token_values (lit "9007199254740993 9007199254740995 0.1"))
       [Fin 9007199254740992; Fin 9007199254740996;
        Fin (3602879701896397 # 36028797018963968)].
Proof.
  pose proof (token_values_nonneg text) as Hvs.
  split; [exact Hvs|]. split; [|split; [|split]].
  - rewrite call_outcome.
    destruct (max_arguments <? List.length (positive_values text)) eqn:E.
    + apply Nat.ltb_lt in E. now split.
    + apply Nat.ltb_ge in E. split; [exact E|].
      rewrite amount_eq. exact (proj2 (amount_of_max Hvs)).
  - intros receipt. split.
    + vm_compute. repeat constructor.
    + intros Hmax. rewrite call_outcome.
      replace (List.length (positive_values receipt)) with 2
        by (vm_compute; reflexivity).
      replace (max_arguments <? 2) with false
        by (symmetry; apply Nat.ltb_ge; exact Hmax).
      eexists. split; [reflexivity|]. rewrite amount_eq.
      vm_compute. reflexivity.
  - intros receipt. split.
    + vm_compute. reflexivity.
    + intros Hmax. rewrite call_outcome.
      replace (List.length (positive_values receipt)) with 1
        by (vm_compute; reflexivity).
      replace (max_arguments <? 1) with false
        by (symmetry; apply Nat.ltb_ge; exact Hmax).
      eexists. split; [reflexivity|]. rewrite amount_eq.
      vm_compute. reflexivity.
  - vm_compute. repeat constructor.
Qed.

(* ------------------------------------------------------------------ *)
(** ** Totality of the parser *)

Lemma find_merchant_in (toLowerCase : str -> str) (lines : list str) :
  find_merchant toLowerCase lines = []
  \/ In (find_merchant toLowerCase lines) lines.
Proof.
  induction lines as [|line rest IH]; simpl; [now left|].
  destruct (merchant_like toLowerCase line); [right; now left|].
  destruct IH as [IH|IH]; [now left|right; now right].
Qed.

Lemma find_date_match (lines : list str) :
  find_date lines = []
  \/ exists line, In line lines
                  /\ str_match datePattern line = Some (find_date lines).
Proof.
  induction lines as [|line rest IH]; simpl; [now left|].
  destruct (str_match datePattern line) as [d|] eqn:Hd.
  - right. exists line. split; [now left|exact Hd].
  - destruct IH as [IH|(l & Hin & Hl)]; [now left|].
    right. exists l. split; [now right|exact Hl].
Qed.

Lemma or_else_nonempty (a b : str) : b <> [] -> or_else a b <> [].
Proof. intros Hb. unfold or_else. destruct a; simpl; [exact Hb|discriminate]. Qed.

Lemma or_else_cases (a b : str) :
  (a = [] /\ or_else a b = b) \/ (a <> [] /\ or_else a b = a).
Proof. destruct a; [left|right]; split; auto; discriminate. Qed.

(** The calendar test accepts ordinary dates. *)
Example calendar_date_accepts :
  calendar_date (lit "2026-11-02") = true
  /\ calendar_date (lit "25/12/2023") = true
  /\ calendar_date (lit "12-25-23") = true.
Proof. repeat split; reflexivity. Qed.

(** C1, as the spec states it, is false for the date: the text
    [Order 99/99/9999] is parsed to the date [99/99/9999], which is a
    calendar date in no reading. *)
Lemma C1_date_can_be_invalid :
  let r := parseReceiptData ascii_lower (lit "2026-11-02")
                            (lit "Order 99/99/9999") in
  date r = lit "99/99/9999" /\ calendar_date (date r) = false.
Proof. split; reflexivity. Qed.

Lemma split_chr_nonempty (sep : char) (s : str) : split_chr sep s <> [].
Proof.
  destruct s as [|c s]; simpl; [discriminate|].
  destruct (c =? sep)%N; [discriminate|].
  destruct (split_chr sep s); discriminate.
Qed.

Lemma split_chr_app (sep : char) (a b : str) :
  split_chr sep (a ++ sep :: b) = split_chr sep a ++ split_chr sep b.
Proof.
  induction a as [|c a IH]; simpl.
  - now rewrite N.eqb_refl.
  - destruct (c =? sep)%N; [now rewrite IH|].
    rewrite IH. destruct (split_chr sep a) as [|p ps] eqn:Ha; [|reflexivity].
    exfalso. now apply (split_chr_nonempty sep a).
Qed.

Lemma lines_of_app (a b : str) :
  lines_of (a ++ [10%N] ++ b) = lines_of a ++ lines_of b.
Proof.
  unfold lines_of. simpl. now rewrite split_chr_app, map_app, filter_app.
Qed.

Lemma token_values_app (a b : str) :
  token_values (a ++ [10%N] ++ b) = token_values a ++ token_values b.
Proof. unfold token_values. now rewrite lines_of_app, flat_map_app. Qed.

Lemma amount_of_fin (vs : list jsnum) :
  Forall nonneg_fin vs ->
  exists q, amount_of vs = Fin q /\ (0 <= q)%Q
            /\ (forall x, In (Fin x) vs -> (x <= q)%Q)
            /\ ((q == 0)%Q \/ exists x, In (Fin x) vs /\ (q == x)%Q).
Proof.
  intros Hvs. destruct (amount_of_max_fin Hvs) as [Hge Hmax].
  rewrite Forall_forall in Hvs.
  destruct Hmax as [[-> Ha]|[Hall Hex]].
  - exists 0%Q. rewrite Ha. repeat split; [apply Qle_refl| |left; reflexivity].
    intros x [].
  - apply Exists_exists in Hex. destruct Hex as (v & Hv & Heq).
    destruct (Hvs v Hv) as (x & -> & Hx).
    destruct (amount_of vs) as [| |q|] eqn:Ha; try contradiction.
    simpl in Heq. exists q. split; [reflexivity|].
    split; [apply Qle_bool_iff; exact Hge|]. split.
    + intros y Hy. rewrite Forall_forall in Hall.
      apply Qle_bool_iff. exact (Hall (Fin y) Hy).
    + right. now exists x.
Qed.

Lemma receipt_of_ones_values (k : nat) :
  List.length (positive_values (receipt_of_ones k)) = k.
Proof.
  induction k as [|k IH]; [reflexivity|].
  cbn [receipt_of_ones]. unfold positive_values in *.
  rewrite token_values_app, filter_app, length_app, IH.
  reflexivity.
Qed.

(** C1, amended. [parseReceiptData] throws a RangeError when the positive
    values of the tokens outnumber the arguments that the engine accepts in
    one call, and otherwise returns a receipt: the merchant is a non-empty
    string, one of the first five lines or "Unknown Merchant"; the amount
    is 0 or more; the date is the extraction date or the first substring of
    a line that matches [datePattern], whose digits are not range-checked;
    there are at most 10 items.  The empty text gives the three defaults
    and no item; a text of [max_arguments + 1] lines that read [1] makes
    the call throw. *)
Theorem C1_parse_total
        (toLowerCase : str -> str) (today : str) (max_arguments : nat)
        (text : str) :
  match parseReceiptData_call toLowerCase today max_arguments text with
  | Throws e =>
      e = RangeError /\ max_arguments < List.length (positive_values text)
  | Returns r =>
      List.length (positive_values text) <= max_arguments
      /\ merchant r <> []
      /\ (merchant r = unknown_merchant
          \/ In (merchant r) (firstn 5 (lines_of text)))
      /\ geb (amount r) (Fin 0) = true
      /\ (date r = today
          \/ (lang datePattern (date r)
              /\ exists line, In line (lines_of text)
                              /\ str_match datePattern line = Some (date r)))
      /\ List.length (items r) <= 10
      /\ rawText r = text
  end
  /\ parseReceiptData_call toLowerCase today max_arguments []
     = Returns {| merchant := unknown_merchant; amount := Fin 0;
                  date := today; items := []; rawText := [] |}
  /\ parseReceiptData_call toLowerCase today max_arguments
                           (receipt_of_ones (S max_arguments))
     = Throws RangeError.
Proof.
  split; [|split].
  - rewrite call_outcome.
    destruct (max_arguments <? List.length (positive_values text)) eqn:E.
    { apply Nat.ltb_lt in E. now split. }
    apply Nat.ltb_ge in E. split; [exact E|].
    set (r := parseReceiptData toLowerCase today text).
    repeat split.
    + apply or_else_nonempty. discriminate.
    + subst r. cbn [merchant parseReceiptData].
      destruct (or_else_cases
                  (find_merchant toLowerCase (firstn 5 (lines_of text)))
                  unknown_merchant) as [[_ ->]|[Hne ->]]; [now left|].
      destruct (find_merchant_in toLowerCase (firstn 5 (lines_of text)));
        [contradiction|now right].
    + subst r. rewrite amount_eq.
      exact (proj1 (amount_of_max (token_values_nonneg text))).
    + subst r. cbn [date parseReceiptData].
      destruct (or_else_cases (find_date (lines_of text)) today)
        as [[_ ->]|[Hne ->]]; [now left|right].
      destruct (find_date_match (lines_of text)) as [H|(line & Hin & Hm)];
        [contradiction|].
      split; [now apply str_match_sound in Hm|now exists line].
    + subst r. cbn [items parseReceiptData]. apply firstn_le_length.
  - rewrite call_outcome. reflexivity.
  - rewrite call_outcome, receipt_of_ones_values.
    now rewrite (proj2 (Nat.ltb_lt max_arguments (S max_arguments))
                       (Nat.lt_succ_diag_r max_arguments)).
Qed.

(* ------------------------------------------------------------------ *)
(** ** The trend of six increasing months *)

(** C3, as the spec states it, is false: the totals 1, 2, 3, 4, 5, 100
    increase strictly, yet the first predicted amount is 209/3, below the
    last observed total 100. *)
Lemma C3_prediction_can_be_below_last :
  increasing (map ExpenseForecaster.total spike_rows)
  /\ exists p,
      hd_error (map ExpenseForecaster.predictedAmount
                    (ExpenseForecaster.forecast
                       (ExpenseForecaster.forecastExpenses (Rows spike_rows) 3)))
      = Some (Fin p)
      /\ (p == 209 # 3)%Q /\ ~ (100 < p)%Q.
Proof.
  split; [simpl; repeat split|].
  eexists. split; [vm_compute; reflexivity|].
  split; [reflexivity|]. intros H. discriminate H.
Qed.

(* ------------------------------------------------------------------ *)
(** ** Anomaly scores *)

Section Anomaly.
Import AnomalyDetector.
Local Open Scope R_scope.

Lemma detect_enough (rows : list Expense) (amount : R) :
  (5 <= List.length rows)%nat ->
  let amounts := map exp_amount rows in
  let z := rabs (rdiv (amount - mean_of amounts) (sqrt (variance_of amounts))) in
  detectAnomalies (Rows rows) amount
  = {| isAnomaly := rgtb z 2.5;
       zScore := Some z;
       mean := Some (mean_of amounts);
       stdDev := Some (sqrt (variance_of amounts));
       reason := if rgtb z 2.5 then Deviates amount z (mean_of amounts)
                 else NormalSpendingPattern |}.
Proof.
  intros H. unfold detectAnomalies.
  replace (List.length rows <? 5)%nat with false
    by (symmetry; apply Nat.ltb_ge; exact H).
  reflexivity.
Qed.

Lemma sqrt2_bounds : 1.414 < sqrt 2 < 1.415.
Proof.
  split.
  - rewrite <- (sqrt_square 1.414) by Lra.lra. apply sqrt_lt_1; Lra.lra.
  - rewrite <- (sqrt_square 1.415) by Lra.lra. apply sqrt_lt_1; Lra.lra.
Qed.

Lemma history_mean : mean_of (map exp_amount history) = 11.
Proof. unfold mean_of. simpl. Lra.lra. Qed.

Lemma history_variance : variance_of (map exp_amount history) = 2.
Proof. unfold variance_of. rewrite history_mean. simpl. Lra.lra. Qed.

Lemma history_z : rabs (rdiv (20 - 11) (sqrt 2)) = RFin (9 / sqrt 2).
Proof.
  pose proof sqrt2_bounds as [Hlo Hhi].
  unfold rdiv. destruct (Req_dec_T (sqrt 2) 0) as [E|_]; [Lra.lra|].
  simpl. f_equal. replace (20 - 11) with 9 by Lra.lra.
  apply Rabs_pos_eq. apply Rlt_le. apply Rdiv_lt_0_compat; Lra.lra.
Qed.

Lemma z_bounds : 6.36 < 9 / sqrt 2 < 6.37.
Proof.
  pose proof sqrt2_bounds as [Hlo Hhi].
  split.
  - apply Rmult_lt_reg_r with (sqrt 2); [Lra.lra|].
    unfold Rdiv. rewrite Rmult_assoc, Rinv_l by Lra.lra. Lra.lra.
  - apply Rmult_lt_reg_r with (sqrt 2); [Lra.lra|].
    unfold Rdiv. rewrite Rmult_assoc, Rinv_l by Lra.lra. Lra.lra.
Qed.

Lemma history_result :
  detectAnomalies (Rows history) 20
  = {| isAnomaly := true;
       zScore := Some (RFin (9 / sqrt 2));
       mean := Some 11;
       stdDev := Some (sqrt 2);
       reason := Deviates 20 (RFin (9 / sqrt 2)) 11 |}.
Proof.
  rewrite detect_enough by (simpl; lia).
  rewrite history_variance, history_mean, history_z.
  pose proof z_bounds as [Hlo _].
  unfold rgtb. destruct (Rlt_dec 2.5 (9 / sqrt 2)) as [_|Hn]; [reflexivity|].
  exfalso. apply Hn. Lra.lra.
Qed.

End Anomaly.

(** C4, as the spec states it, is false: on the history 10, 12, 11, 13, 9
    and the amount 20 the deviation and the z-score that the code returns
    are not within 0.1 of 1.58 and 5.7. *)
Lemma C4_deviation_is_not_1_58 :
  ~ (exists s z,
        AnomalyDetector.stdDev
          (AnomalyDetector.detectAnomalies (Rows history) 20%R) = Some s
        /\ AnomalyDetector.zScore
             (AnomalyDetector.detectAnomalies (Rows history) 20%R)
           = Some (AnomalyDetector.RFin z)
        /\ approx 0.1 s 1.58 /\ approx 0.1 z 5.7).
Proof.
  rewrite history_result. cbn.
  intros (s & z & Hs & _ & Ha & _).
  inversion Hs; subst s. clear Hs.
  pose proof sqrt2_bounds as [_ Hhi].
  unfold approx, Rabs in Ha.
  destruct (Rcase_abs (sqrt 2 - 1.58)) in Ha; Lra.lra.
Qed.

(** C4, amended. On the history 10, 12, 11, 13, 9 and the amount 20 the
    detector computes the mean 11, the population standard deviation
    [sqrt 2], about 1.41, and the z-score [9 / sqrt 2], about 6.36, and it
    returns [isAnomaly = true]. *)
Theorem C4_history_example :
  AnomalyDetector.detectAnomalies (Rows history) 20%R
  = {| AnomalyDetector.isAnomaly := true;
       AnomalyDetector.zScore := Some (AnomalyDetector.RFin (9 / sqrt 2));
       AnomalyDetector.mean := Some 11%R;
       AnomalyDetector.stdDev := Some (sqrt 2);
       AnomalyDetector.reason :=
         AnomalyDetector.Deviates 20 (AnomalyDetector.RFin (9 / sqrt 2)) 11 |}
  /\ (1.414 < sqrt 2 < 1.415)%R
  /\ (6.36 < 9 / sqrt 2 < 6.37)%R.
Proof.
  split; [exact history_result|].
  split; [exact sqrt2_bounds|exact z_bounds].
Qed.

(* ------------------------------------------------------------------ *)
(** ** Lines of a receipt *)

Lemma dropwhile_split (p : char -> bool) (s : str) :
  exists w, s = w ++ dropwhile p s /\ Forall (fun c => p c = true) w.
Proof.
  induction s as [|c s (w & Hs & Hw)]; simpl.
  - exists []. split; [reflexivity|constructor].
  - destruct (p c) eqn:Hc.
    + exists (c :: w). split; [simpl; now f_equal|now constructor].
    + exists []. split; [reflexivity|constructor].
Qed.

Lemma dropwhile_head (p : char -> bool) (s : str) (c : char) (rest : str) :
  dropwhile p s = c :: rest -> p c = false.
Proof.
  induction s as [|x s IH]; simpl; [discriminate|].
  destruct (p x) eqn:Hx; [exact IH|].
  intros H. inversion H; subst. exact Hx.
Qed.

Lemma dropwhile_all (p : char -> bool) (s : str) :
  Forall (fun c => p c = true) s -> dropwhile p s = [].
Proof.
  induction 1 as [|c s Hc _ IH]; simpl; [reflexivity|]. now rewrite Hc.
Qed.

(** [trim] cuts white space off both ends and nothing else. *)
Lemma trim_infix (s : str) :
  exists u v, s = u ++ trim s ++ v
              /\ Forall (fun c => is_space c = true) u
              /\ Forall (fun c => is_space c = true) v.
Proof.
  unfold trim.
  destruct (dropwhile_split is_space s) as (u & Hs & Hu).
  destruct (dropwhile_split is_space (rev (dropwhile is_space s)))
    as (w & Hr & Hw).
  exists u, (rev w). split; [|split; [exact Hu|]].
  - rewrite <- rev_app_distr, <- Hr, rev_involutive. exact Hs.
  - apply Forall_rev. exact Hw.
Qed.

Lemma trim_no_space_at_ends (s : str) : no_space_at_ends (trim s) = true.
Proof.
  unfold no_space_at_ends. apply andb_true_intro. split.
  - destruct (trim s) as [|c r] eqn:Ht; [reflexivity|].
    destruct (trim_infix s) as (u & v & Hs & _ & _). rewrite Ht in Hs.
    unfold trim in Ht.
    destruct (dropwhile_split is_space (rev (dropwhile is_space s)))
      as (w & Hr & _).
    apply (f_equal (@rev char)) in Hr.
    rewrite rev_involutive, rev_app_distr, Ht in Hr.
    simpl in Hr. apply dropwhile_head in Hr. now rewrite Hr.
  - unfold trim. rewrite rev_involutive.
    destruct (dropwhile is_space (rev (dropwhile is_space s)))
      as [|c r] eqn:Hd; [reflexivity|].
    apply dropwhile_head in Hd. now rewrite Hd.
Qed.

Lemma trim_all_space (s : str) :
  Forall (fun c => is_space c = true) s -> trim s = [].
Proof. intros H. unfold trim. now rewrite (@dropwhile_all is_space s H). Qed.

Lemma split_chr_head (sep : char) (s : str) :
  forall p ps, split_chr sep s = p :: ps ->
               exists v, s = p ++ v /\ ~ In sep p.
Proof.
  induction s as [|c s IH]; intros p ps H; simpl in H.
  - inversion H; subst. exists []. split; [reflexivity|intros []].
  - destruct (c =? sep)%N eqn:Hc.
    + inversion H; subst. exists (c :: s). split; [reflexivity|intros []].
    + destruct (split_chr sep s) as [|p0 ps0] eqn:Hs.
      * inversion H; subst. exfalso. now apply (split_chr_nonempty sep s).
      * destruct (IH p0 ps0 eq_refl) as (v & Hv & Hn).
        inversion H; subst.
        exists v. split; [reflexivity|].
        intros [E|E]; [|now apply Hn].
        apply N.eqb_neq in Hc. now apply Hc.
Qed.

Lemma split_chr_infix (sep : char) (s : str) :
  forall p, In p (split_chr sep s) ->
            exists u v, s = u ++ p ++ v /\ ~ In sep p.
Proof.
  induction s as [|c s IH]; intros p Hin; simpl in Hin.
  - destruct Hin as [<-|[]]. exists [], []. split; [reflexivity|intros []].
  - destruct (c =? sep)%N eqn:Hc.
    + destruct Hin as [<-|Hin].
      * exists [], (c :: s). split; [reflexivity|intros []].
      * destruct (IH p Hin) as (u & v & -> & Hn).
        exists (c :: u), v. split; [reflexivity|exact Hn].
    + destruct (split_chr sep s) as [|p0 ps0] eqn:Hs.
      * destruct Hin as [<-|[]]. exfalso. now apply (split_chr_nonempty sep s).
      * destruct Hin as [<-|Hin].
        -- destruct (@split_chr_head sep s p0 ps0 Hs) as (v & -> & Hn).
           exists [], v. split; [reflexivity|].
           intros [E|E]; [|now apply Hn].
           apply N.eqb_neq in Hc. now apply Hc.
        -- destruct (IH p (or_intror Hin)) as (u & v & -> & Hn).
           exists (c :: u), v. split; [reflexivity|exact Hn].
Qed.

Lemma lines_of_in (text line : str) :
  In line (lines_of text) ->
  line <> [] /\ exists piece, In piece (split_chr 10%N text) /\ line = trim piece.
Proof.
  unfold lines_of. intros H. apply filter_In in H. destruct H as [H Hlen].
  apply in_map_iff in H. destruct H as (piece & <- & Hp).
  split; [|now exists piece].
  destruct (trim piece); [discriminate|discriminate].
Qed.

(** X1. Every line that the parser works on is a non-empty contiguous piece
    of the text, without a line feed and without white space at either
    end. *)
Theorem lines_are_trimmed_pieces (text : str) :
  Forall (fun line =>
            line <> []
            /\ no_space_at_ends line = true
            /\ ~ In 10%N line
            /\ exists u v, text = u ++ line ++ v)
         (lines_of text).
Proof.
  apply Forall_forall. intros line Hin.
  destruct (@lines_of_in text line Hin) as (Hne & piece & Hp & ->).
  destruct (@split_chr_infix 10%N text piece Hp) as (u & v & -> & Hn).
  destruct (trim_infix piece) as (a & b & Hpiece & _ & _).
  split; [exact Hne|]. split; [apply trim_no_space_at_ends|]. split.
  - intros H. apply Hn. rewrite Hpiece. apply in_or_app. right.
    apply in_or_app. now left.
  - exists (u ++ a), (b ++ v). rewrite Hpiece at 1.
    now rewrite <- !app_assoc.
Qed.

Lemma lines_of_all_space (text : str) :
  Forall (fun c => is_space c = true) text -> lines_of text = [].
Proof.
  intros Hsp. unfold lines_of.
  assert (H : forall l, (forall p, In p l -> trim p = []) ->
                        filter (fun line => 0 <? List.length line)
                               (map trim l) = []).
  { induction l as [|p l IH]; intros Hl; simpl; [reflexivity|].
    rewrite (Hl p (or_introl eq_refl)). simpl. apply IH.
    intros q Hq. apply Hl. now right. }
  apply H. intros p Hp. apply trim_all_space.
  destruct (@split_chr_infix 10%N text p Hp) as (u & v & -> & _).
  apply Forall_app in Hsp. destruct Hsp as [_ Hsp].
  apply Forall_app in Hsp. tauto.
Qed.

(** X2. A text made of white space only (blank lines included) gives the
    three defaults and no item. *)
Theorem blank_text_gives_defaults
        (toLowerCase : str -> str) (today text : str) :
  Forall (fun c => is_space c = true) text ->
  parseReceiptData toLowerCase today text
  = {| merchant := unknown_merchant; amount := Fin 0; date := today;
       items := []; rawText := text |}.
Proof.
  intros H. unfold parseReceiptData. now rewrite (@lines_of_all_space text H).
Qed.

Lemma blank_text_witness :
  let text := lit "   " ++ [10%N; 9%N; 13%N; 10%N] ++ lit " " in
  Forall (fun c => is_space c = true) text
  /\ merchant (parseReceiptData ascii_lower (lit "2026-11-02") text)
     = unknown_merchant.
Proof.
  intros text.
  assert (H : Forall (fun c => is_space c = true) text)
    by (repeat constructor).
  split; [exact H|].
  now rewrite (@blank_text_gives_defaults ascii_lower (lit "2026-11-02") text H).
Defined.

(* ------------------------------------------------------------------ *)
(** ** Two receipts in one text *)

Lemma amount_of_app_fin (u v : list jsnum) :
  Forall nonneg_fin u -> Forall nonneg_fin v ->
  eqv (amount_of (u ++ v)) (max2 (amount_of u) (amount_of v)).
Proof.
  intros Hu Hv.
  destruct (amount_of_fin Hu) as (qu & -> & Hu0 & Hub & Huin).
  destruct (amount_of_fin Hv) as (qv & -> & Hv0 & Hvb & Hvin).
  destruct (@amount_of_fin (u ++ v)) as (q & -> & Hq0 & Hqb & Hqin);
    [apply Forall_app; now split|].
  assert (Hqu : (qu <= q)%Q).
  { destruct Huin as [E|(x & Hx & E)]; [rewrite E; exact Hq0|].
    rewrite E. apply Hqb. apply in_or_app. now left. }
  assert (Hqv : (qv <= q)%Q).
  { destruct Hvin as [E|(x & Hx & E)]; [rewrite E; exact Hq0|].
    rewrite E. apply Hqb. apply in_or_app. now right. }
  assert (Hle : (q <= qu)%Q \/ (q <= qv)%Q).
  { destruct Hqin as [E|(x & Hx & E)]; [left; rewrite E; exact Hu0|].
    apply in_app_or in Hx. destruct Hx as [Hx|Hx];
      [left|right]; rewrite E; auto. }
  unfold max2, ltb. destruct (Qltb qu qv) eqn:E; simpl.
  - apply Qltb_lt in E. apply Qle_antisym; [|exact Hqv].
    destruct Hle as [H|H]; [|exact H].
    eapply Qle_trans; [exact H|now apply Qlt_le_weak].
  - apply Qltb_ge in E. apply Qle_antisym; [|exact Hqu].
    destruct Hle as [H|H]; [exact H|].
    eapply Qle_trans; [exact H|exact E].
Qed.

Lemma amount_of_nonneg (vs : list jsnum) :
  Forall nonneg vs -> nonneg (amount_of vs).
Proof.
  intros Hvs. destruct (nonneg_split Hvs) as [Hin|Hfin].
  - left. now apply amount_of_posinf.
  - right. destruct (amount_of_fin Hfin) as (q & Hq & Hq0 & _).
    now exists q.
Qed.

Lemma amount_of_app (u v : list jsnum) :
  Forall nonneg u -> Forall nonneg v ->
  eqv (amount_of (u ++ v)) (max2 (amount_of u) (amount_of v)).
Proof.
  intros Hu Hv.
  assert (Huv : Forall nonneg (u ++ v)) by (apply Forall_app; now split).
  destruct (nonneg_split Hu) as [Hiu|Hfu].
  - rewrite (amount_of_posinf Huv), (amount_of_posinf Hu);
      [|exact Hiu|apply in_or_app; now left].
    now destruct (amount_of_nonneg Hv) as [->|(y & -> & Hy)].
  - destruct (nonneg_split Hv) as [Hiv|Hfv]; [|now apply amount_of_app_fin].
    rewrite (amount_of_posinf Huv), (amount_of_posinf Hv);
      [|exact Hiv|apply in_or_app; now right].
    now destruct (amount_of_nonneg Hu) as [->|(y & -> & Hy)].
Qed.

(** X3. When two receipt texts are joined by a line feed, the parser works
    on the lines of the first followed by the lines of the second; the
    amount is the larger of the two amounts and the items are the first ten
    of the kept lines of both. *)
Theorem joined_receipts
        (toLowerCase : str -> str) (today a b : str) :
  let r := parseReceiptData toLowerCase today (a ++ [10%N] ++ b) in
  lines_of (a ++ [10%N] ++ b) = lines_of a ++ lines_of b
  /\ eqv (amount r)
         (max2 (amount (parseReceiptData toLowerCase today a))
               (amount (parseReceiptData toLowerCase today b)))
  /\ items r
     = firstn 10 (filter item_kept (lines_of a)
                  ++ filter item_kept (lines_of b)).
Proof.
  intros r. subst r. split; [apply lines_of_app|]. split.
  - rewrite !amount_eq, token_values_app.
    apply amount_of_app; apply token_values_nonneg.
  - unfold parseReceiptData; cbn [items].
    now rewrite collect_items_filter, lines_of_app, filter_app.
Qed.

(* ------------------------------------------------------------------ *)
(** ** The merchant and the date of a receipt *)

Lemma in_firstn {A : Type} (n : nat) (l : list A) (x : A) :
  In x (firstn n l) -> In x l.
Proof.
  intros H. rewrite <- (firstn_skipn n l). apply in_or_app. now left.
Qed.

Lemma find_merchant_first (toLowerCase : str -> str) (lines : list str) :
  (Forall (fun l => merchant_like toLowerCase l = false) lines
   /\ find_merchant toLowerCase lines = [])
  \/ (exists pre post,
         lines = pre ++ find_merchant toLowerCase lines :: post
         /\ Forall (fun l => merchant_like toLowerCase l = false) pre
         /\ merchant_like toLowerCase (find_merchant toLowerCase lines)
            = true).
Proof.
  induction lines as [|line rest IH]; simpl.
  - left. split; [constructor|reflexivity].
  - destruct (merchant_like toLowerCase line) eqn:Hl.
    + right. exists [], rest. repeat split; [constructor|exact Hl].
    + destruct IH as [[Hall Hnone]|(pre & post & Hsplit & Hpre & Hm)].
      * left. split; [now constructor|exact Hnone].
      * right. exists (line :: pre), post. split; [simpl; now f_equal|].
        split; [now constructor|exact Hm].
Qed.

(** X4. The merchant is the earliest of the first five lines that contains
    a business word (after lower-casing) or has 6 to 49 code units; it is
    "Unknown Merchant" when none of the five qualifies. *)
Theorem merchant_is_first_candidate
        (toLowerCase : str -> str) (today text : str) :
  let r := parseReceiptData toLowerCase today text in
  let head := firstn 5 (lines_of text) in
  (Forall (fun l => merchant_like toLowerCase l = false) head
   /\ merchant r = unknown_merchant)
  \/ (exists pre post,
         head = pre ++ merchant r :: post
         /\ Forall (fun l => merchant_like toLowerCase l = false) pre
         /\ merchant_like toLowerCase (merchant r) = true).
Proof.
  intros r head. subst r. cbn [merchant parseReceiptData]. fold head.
  destruct (find_merchant_first toLowerCase head)
    as [[Hall Hnone]|(pre & post & Hsplit & Hpre & Hm)].
  - left. rewrite Hnone. split; [exact Hall|reflexivity].
  - right.
    assert (Hne : find_merchant toLowerCase head <> []).
    { assert (Hin : In (find_merchant toLowerCase head) (lines_of text)).
      { apply (@in_firstn _ 5). fold head.
        set (m := find_merchant toLowerCase head) in *.
        rewrite Hsplit. apply in_or_app. right. now left. }
      apply lines_of_in in Hin. tauto. }
    destruct (or_else_cases (find_merchant toLowerCase head) unknown_merchant)
      as [[E _]|[_ ->]]; [contradiction|].
    now exists pre, post.
Qed.

Lemma rep_bound (p : char -> bool) (s : str) :
  forall lo h i e s',
    In (e, s') (rep p lo (Some h) i s) -> e <= i + h.
Proof.
  induction s as [|c s IH]; intros lo h i e s' Hin.
  - assert (Hstop : In (e, s') (match lo with O => [(i, [])] | S _ => [] end)).
    { destruct h; exact Hin. }
    destruct lo; simpl in Hstop; [|contradiction].
    destruct Hstop as [H|[]]. inversion H; subst. lia.
  - assert (Hcases :
              In (e, s') (match lo with O => [(i, c :: s)] | S _ => [] end)
              \/ (exists h', h = S h'
                             /\ In (e, s') (rep p (pred lo) (Some h') (S i) s))).
    { simpl in Hin. destruct h as [|h']; [now left|].
      destruct (p c); [|now left].
      apply in_app_or in Hin. destruct Hin as [Hin|Hin]; [right|now left].
      exists h'. split; [reflexivity|exact Hin]. }
    destruct Hcases as [Hstop|(h' & -> & Hrec)].
    + destruct lo; simpl in Hstop; [|contradiction].
      destruct Hstop as [H|[]]. inversion H; subst. lia.
    + apply IH in Hrec. lia.
Qed.

(** A match is no longer than the longest word of the pattern. *)
Lemma run_bound (r : regex) :
  forall m i s e s',
    max_len r = Some m -> In (e, s') (run r (i, s)) -> e <= i + m.
Proof.
  induction r as [|p|a IHa b IHb|a IHa b IHb|lo hi p| |];
    intros m i s e s' Hm Hin; simpl in Hm, Hin.
  - inversion Hm; subst. destruct Hin as [H|[]]. inversion H; subst. lia.
  - inversion Hm; subst. destruct s as [|c s]; [contradiction|].
    destruct (p c); [|contradiction].
    destruct Hin as [H|[]]. inversion H; subst. lia.
  - destruct (max_len a) as [ma|]; [|discriminate].
    destruct (max_len b) as [mb|]; [|discriminate].
    inversion Hm; subst.
    apply in_flat_map in Hin. destruct Hin as ([e1 s1] & H1 & H2).
    specialize (IHa ma i s e1 s1 eq_refl H1).
    specialize (IHb mb e1 s1 e s' eq_refl H2). lia.
  - destruct (max_len a) as [ma|]; [|discriminate].
    destruct (max_len b) as [mb|]; [|discriminate].
    inversion Hm; subst.
    apply in_app_or in Hin. destruct Hin as [H|H].
    + specialize (IHa ma i s e s' eq_refl H). lia.
    + specialize (IHb mb i s e s' eq_refl H). lia.
  - subst hi. now apply rep_bound in Hin.
  - inversion Hm; subst. destruct i; [|contradiction].
    destruct Hin as [H|[]]. inversion H; subst. lia.
  - inversion Hm; subst. destruct s; [|contradiction].
    destruct Hin as [H|[]]. inversion H; subst. lia.
Qed.

Lemma search_in_run (r : regex) (s : str) :
  forall i i' e,
    search_from r i s = Some (i', e) ->
    exists s1 s', In (e, s') (run r (i', s1)).
Proof.
  induction s as [|c s IH]; intros i i' e H; rewrite search_from_eq in H.
  - destruct_run H; [discriminate|].
    inversion H; subst. exists [], s0. rewrite Hrun. now left.
  - destruct_run H.
    + now apply IH in H.
    + inversion H; subst. exists (c :: s), s0. rewrite Hrun. now left.
Qed.

Lemma str_match_length (r : regex) (s d : str) (m : nat) :
  max_len r = Some m -> str_match r s = Some d -> List.length d <= m.
Proof.
  intros Hm. unfold str_match.
  destruct (search_from r 0 s) as [[i e]|] eqn:H; [|discriminate].
  intros Hd. inversion Hd; subst. clear Hd.
  apply search_in_run in H. destruct H as (s1 & s' & Hin).
  pose proof (@run_bound r m i s1 e s' Hm Hin) as Hb.
  unfold slice. pose proof (firstn_le_length (e - i) (skipn i s)). lia.
Qed.

Lemma digit_not_sep (c : char) : is_digit c = true -> is_date_sep c = false.
Proof.
  unfold is_digit, is_date_sep, in_range. intros H.
  destruct ((c =? 47)%N || (c =? 45)%N) eqn:E; [exfalso|reflexivity].
  rewrite ?orb_true_iff, ?andb_true_iff, ?N.leb_le, ?N.eqb_eq in *. lia.
Qed.

Lemma filter_sep_digits (w : str) :
  Forall (fun c => is_digit c = true) w -> filter is_date_sep w = [].
Proof.
  induction 1 as [|c w Hc _ IH]; simpl; [reflexivity|].
  now rewrite (digit_not_sep c Hc).
Qed.

Lemma digits_date_chars (w : str) :
  Forall (fun c => is_digit c = true) w ->
  Forall (fun c => is_digit c || is_date_sep c = true) w.
Proof.
  intros H. eapply Forall_impl; [|exact H]. simpl. intros c Hc. now rewrite Hc.
Qed.

(** The words of five parts: digits, separator, digits, separator, digits. *)
Lemma date_parts_shape (l1 l2 l3 : nat) (h1 h2 h3 : option nat) (w : str) :
  lang (cat_all [ Rep l1 h1 is_digit; Set_ is_date_sep;
                  Rep l2 h2 is_digit; Set_ is_date_sep;
                  Rep l3 h3 is_digit ]) w ->
  l1 + l2 + l3 + 2 <= List.length w
  /\ Forall (fun c => is_digit c || is_date_sep c = true) w
  /\ List.length (filter is_date_sep w) = 2.
Proof.
  intros H. cbn [cat_all] in H.
  apply lang_cat_inv in H. destruct H as (d1 & w1 & -> & H1 & H).
  apply lang_cat_inv in H. destruct H as (s1 & w2 & -> & Hs1 & H).
  apply lang_cat_inv in H. destruct H as (d2 & w3 & -> & H2 & H).
  apply lang_cat_inv in H. destruct H as (s2 & d3 & -> & Hs2 & H3).
  apply lang_rep_inv in H1. destruct H1 as [H1 Hl1].
  apply lang_rep_inv in H2. destruct H2 as [H2 Hl2].
  apply lang_rep_inv in H3. destruct H3 as [H3 Hl3].
  apply lang_set_inv in Hs1. destruct Hs1 as (c1 & -> & Hc1).
  apply lang_set_inv in Hs2. destruct Hs2 as (c2 & -> & Hc2).
  split; [|split].
  - rewrite !length_app. simpl. lia.
  - repeat (apply Forall_app; split); try now apply digits_date_chars.
    + constructor; [|constructor]. rewrite Hc1. apply orb_true_r.
    + constructor; [|constructor]. rewrite Hc2. apply orb_true_r.
  - rewrite !filter_app, (@filter_sep_digits d1 H1),
      (@filter_sep_digits d2 H2), (@filter_sep_digits d3 H3).
    simpl. now rewrite Hc1, Hc2.
Qed.

Lemma date_match_shaped (line d : str) :
  str_match datePattern line = Some d -> date_shaped d.
Proof.
  intros H. pose proof (@str_match_length datePattern line d 10 eq_refl H) as Hmax.
  apply str_match_sound in H. unfold datePattern in H.
  apply lang_alt_inv in H.
  destruct H as [H|H]; apply date_parts_shape in H;
    destruct H as (Hmin & Hall & Hsep);
    (split; [split; [lia|exact Hmax]|split; assumption]).
Qed.

Lemma find_date_first (lines : list str) :
  (Forall (fun l => str_match datePattern l = None) lines
   /\ find_date lines = [])
  \/ (exists pre line post,
         lines = pre ++ line :: post
         /\ Forall (fun l => str_match datePattern l = None) pre
         /\ str_match datePattern line = Some (find_date lines)).
Proof.
  induction lines as [|line rest IH]; simpl.
  - left. split; [constructor|reflexivity].
  - destruct (str_match datePattern line) as [d|] eqn:Hd.
    + right. exists [], line, rest. repeat split; [constructor|exact Hd].
    + destruct IH as [[Hall Hnone]|(pre & l & post & Hs & Hpre & Hm)].
      * left. split; [now constructor|exact Hnone].
      * right. exists (line :: pre), l, post.
        split; [simpl; now f_equal|]. split; [now constructor|exact Hm].
Qed.

(** X5. The date is taken from the earliest line in which [datePattern]
    matches, and it is then a string of 6 to 10 code units, digits and
    exactly two separators; when no line matches it is the extraction
    date. *)
Theorem date_is_first_match
        (toLowerCase : str -> str) (today text : str) :
  let r := parseReceiptData toLowerCase today text in
  (Forall (fun l => str_match datePattern l = None) (lines_of text)
   /\ date r = today)
  \/ (exists pre line post,
         lines_of text = pre ++ line :: post
         /\ Forall (fun l => str_match datePattern l = None) pre
         /\ str_match datePattern line = Some (date r)
         /\ date_shaped (date r)).
Proof.
  intros r. subst r. cbn [date parseReceiptData].
  destruct (find_date_first (lines_of text))
    as [[Hall Hnone]|(pre & line & post & Hs & Hpre & Hm)].
  - left. rewrite Hnone. split; [exact Hall|reflexivity].
  - right. pose proof (@date_match_shaped line _ Hm) as Hshape.
    assert (Hne : find_date (lines_of text) <> []).
    { destruct Hshape as [[Hmin _] _]. intros E. rewrite E in Hmin.
      simpl in Hmin. lia. }
    destruct (or_else_cases (find_date (lines_of text)) today)
      as [[E _]|[_ ->]]; [contradiction|].
    exists pre, line, post. repeat split; try assumption; apply Hshape.
Qed.

(* ------------------------------------------------------------------ *)
(** ** Scores of the categorizer *)

Lemma inject_Z_succ (n : nat) :
  (inject_Z (Z.of_nat (S n)) == inject_Z (Z.of_nat n) + 1)%Q.
Proof. rewrite Nat2Z.inj_succ. unfold Z.succ. now rewrite inject_Z_plus. Qed.

Lemma inject_Z_nat_nonneg (n : nat) : (0 <= inject_Z (Z.of_nat n))%Q.
Proof. unfold Qle; simpl. lia. Qed.

Lemma count_fold (keywords words : list str) :
  forall a,
    exists q,
      fold_left (fun score word =>
                   if existsb (eqb word) keywords
                   then add score (Fin 1) else score)
                words (Fin a) = Fin q
      /\ (a <= q)%Q
      /\ (q <= a + inject_Z (Z.of_nat (List.length words)))%Q.
Proof.
  induction words as [|w words IH]; intros a.
  - exists a. split; [reflexivity|].
    change (inject_Z (Z.of_nat (List.length (@nil str)))) with 0%Q.
    split; Lqa.lra.
  - cbn [fold_left List.length].
    pose proof (inject_Z_succ (List.length words)) as Hs.
    pose proof (inject_Z_nat_nonneg (List.length words)) as Hn.
    destruct (existsb (eqb w) keywords).
    + destruct (IH (a + 1)%Q) as (q & Hq & Hlo & Hhi).
      exists q. split; [exact Hq|]. rewrite Hs. split; Lqa.lra.
    + destruct (IH a) as (q & Hq & Hlo & Hhi).
      exists q. split; [exact Hq|]. rewrite Hs. split; Lqa.lra.
Qed.

Lemma of_nat_succ_nonzero (n : nat) :
  Qeq_bool (inject_Z (Z.of_nat (S n))) 0 = false.
Proof. reflexivity. Qed.

Lemma tfidf_range (toLowerCase : str -> str) (text : str) (c : Category) :
  (words_of toLowerCase text = []
   /\ calculateTFIDF toLowerCase text c = NaN)
  \/ (words_of toLowerCase text <> []
      /\ exists q, calculateTFIDF toLowerCase text c = Fin q
                   /\ (0 <= q <= 1)%Q).
Proof.
  unfold calculateTFIDF.
  destruct (words_of toLowerCase text) as [|w ws] eqn:Hw.
  - left. split; reflexivity.
  - right. split; [discriminate|].
    destruct (count_fold (keywords_of c) (w :: ws) 0) as (q & -> & Hlo & Hhi).
    cbn [List.length] in *. unfold of_nat, div.
    rewrite of_nat_succ_nonzero.
    eexists. split; [reflexivity|].
    set (n := inject_Z (Z.of_nat (S (List.length ws)))) in *.
    assert (Hn : (0 < n)%Q) by (unfold n, Qlt; simpl; lia).
    split.
    + apply Qle_shift_div_l; [exact Hn|]. Lqa.lra.
    + apply Qle_shift_div_r; [exact Hn|]. Lqa.lra.
Qed.

(** X6. The keyword score of a category is [NaN] exactly when the text has
    no word longer than 2 code units, and otherwise a fraction between 0
    and 1: the share of the words that are keywords of the category. *)
Theorem keyword_score_range
        (toLowerCase : str -> str) (text : str) (c : Category) :
  (words_of toLowerCase text = []
   /\ calculateTFIDF toLowerCase text c = NaN)
  \/ (words_of toLowerCase text <> []
      /\ exists q, calculateTFIDF toLowerCase text c = Fin q
                   /\ (0 <= q <= 1)%Q).
Proof. apply tfidf_range. Qed.


Lemma bonus_shape (cond : bool) (s : jsnum) :
  (s = NaN \/ exists t, s = Fin t /\ (0 <= t)%Q) ->
  let s' := if cond then add s (Fin 0.1) else s in
  s' = NaN \/ exists t, s' = Fin t /\ (0 <= t)%Q.
Proof.
  intros [->|(t & -> & Ht)]; destruct cond; simpl; auto.
  - right. eexists. split; [reflexivity|]. Lqa.lra.
  - right. eexists. split; [reflexivity|]. exact Ht.
Qed.

Lemma tfidf_shape (toLowerCase : str -> str) (text : str) (c : Category) :
  calculateTFIDF toLowerCase text c = NaN
  \/ exists t, calculateTFIDF toLowerCase text c = Fin t /\ (0 <= t)%Q.
Proof.
  destruct (tfidf_range toLowerCase text c)
    as [[_ H]|[_ (q & H & Hq & _)]]; [now left|right; eauto].
Qed.

(** One turn of the loop keeps the best pair or replaces it by a category
    other than [other] with a strictly greater finite score. *)
Lemma score_step_cases (toLowerCase : str -> str) (text : str)
      (amount : jsnum) (best : Category * jsnum)
      (entry : Category * list str) (b : Q) :
  snd best = Fin b ->
  score_step toLowerCase text amount best entry = best
  \/ exists q, score_step toLowerCase text amount best entry
               = (fst entry, Fin q)
               /\ (b < q)%Q /\ fst entry <> other.
Proof.
  intros Hb. unfold score_step.
  destruct (Category_eqb (fst entry) other) eqn:Ho; [now left|].
  assert (Hne : fst entry <> other)
    by (intros E; rewrite E in Ho; discriminate).
  pose proof (tfidf_shape toLowerCase text (fst entry)) as H0.
  apply (bonus_shape (Category_eqb (fst entry) food && ltb amount (Fin 100)))
    in H0.
  apply (bonus_shape (Category_eqb (fst entry) transport
                      && ltb amount (Fin 50))) in H0.
  apply (bonus_shape (Category_eqb (fst entry) utilities
                      && gtb amount (Fin 50))) in H0.
  cbv zeta in H0. rewrite Hb.
  destruct H0 as [->|(t & -> & _)]; [now left|].
  unfold gtb, ltb. destruct (Qltb b t) eqn:E; [|now left].
  right. exists t. split; [reflexivity|]. split; [now apply Qltb_lt|exact Hne].
Qed.

Lemma score_step_ok (toLowerCase : str -> str) (text : str) (amount : jsnum)
      (lo : Q) (best : Category * jsnum) (entry : Category * list str) :
  best_ok lo best ->
  best_ok lo (score_step toLowerCase text amount best entry).
Proof.
  intros (b & Hb & Hlo & Hother).
  destruct (score_step_cases toLowerCase text amount best entry Hb)
    as [->|(q & -> & Hq & Hne)].
  - now exists b.
  - exists q. split; [reflexivity|]. split; [Lqa.lra|].
    intros E. contradiction.
Qed.

Lemma fold_score_ok (toLowerCase : str -> str) (text : str) (amount : jsnum)
      (lo : Q) (entries : list (Category * list str)) :
  forall best,
    best_ok lo best ->
    best_ok lo (fold_left (score_step toLowerCase text amount) entries best).
Proof.
  induction entries as [|e rest IH]; intros best Hb; simpl; [exact Hb|].
  apply IH. now apply score_step_ok.
Qed.

Lemma best_match_ok (toLowerCase : str -> str) (name : str) (amount : jsnum)
      (notes : str) :
  best_ok 0 (best_match toLowerCase name amount notes).
Proof.
  unfold best_match. apply fold_score_ok.
  exists 0%Q. split; [reflexivity|]. split; Lqa.lra.
Qed.

(** X7. The confidence that [categorize] reports is always a finite number
    between 0 and 1, whatever the name, the notes and the amount ([NaN] and
    the infinities included). *)
Theorem confidence_in_unit_interval
        (toLowerCase : str -> str) (name : str) (amount : jsnum) (notes : str) :
  exists q, confidence (categorize toLowerCase name amount notes) = Fin q
            /\ (0 <= q <= 1)%Q.
Proof.
  destruct (best_match_ok toLowerCase name amount notes)
    as (b & Hb & Hlo & _).
  unfold categorize. cbn [confidence]. rewrite Hb.
  unfold mul, min2, ltb. destruct (Qltb 1.0 (b * 2)) eqn:E.
  - exists 1.0%Q. split; [reflexivity|]. split; Lqa.lra.
  - apply Qltb_ge in E. exists (b * 2)%Q. split; [reflexivity|].
    split; Lqa.lra.
Qed.

Lemma ltb_fin_mono (a : jsnum) (x y : Q) :
  (x <= y)%Q -> ltb a (Fin x) = true -> ltb a (Fin y) = true.
Proof.
  intros Hxy. destruct a as [| |q|]; simpl; auto.
  intros H. apply Qltb_lt in H. apply Qltb_lt. Lqa.lra.
Qed.

(** X8. [categorize] answers [other] exactly when no category scored 0.1
    or more and the amount is not below 500 (500 or more, or [NaN]). *)
Theorem other_only_from_fallback
        (toLowerCase : str -> str) (name : str) (amount : jsnum) (notes : str) :
  category (categorize toLowerCase name amount notes) = other
  <-> (uses_fallback toLowerCase name amount notes = true
       /\ ltb amount (Fin 500) = false).
Proof.
  destruct (best_match_ok toLowerCase name amount notes)
    as (b & Hb & Hlo & Hother).
  unfold categorize, uses_fallback. cbn [category]. rewrite Hb.
  destruct (ltb (Fin b) (Fin 0.1)) eqn:Hf.
  - unfold fallback_category.
    destruct (ltb amount (Fin 500)) eqn:H500.
    + destruct (ltb amount (Fin 20)); [split; [discriminate|intros [_ H]; discriminate]|].
      destruct (ltb amount (Fin 100));
        split; try discriminate; intros [_ H]; discriminate.
    + destruct (ltb amount (Fin 20)) eqn:H20.
      { apply (@ltb_fin_mono amount 20 500) in H20; [congruence|Lqa.lra]. }
      destruct (ltb amount (Fin 100)) eqn:H100.
      { apply (@ltb_fin_mono amount 100 500) in H100; [congruence|Lqa.lra]. }
      split; auto.
  - split; [|intros [H _]; discriminate].
    intros E. specialize (Hother E).
    simpl in Hf. apply Qltb_ge in Hf. Lqa.lra.
Qed.

Lemma first_step_food (toLowerCase : str -> str) (text : str) (amount : jsnum)
      (keywords : list str) :
  words_of toLowerCase text <> [] ->
  ltb amount (Fin 100) = true ->
  best_ok 0.1 (score_step toLowerCase text amount (other, Fin 0)
                          (food, keywords)).
Proof.
  intros Hw Ha. unfold score_step. cbn [fst snd Category_eqb andb].
  rewrite Ha.
  destruct (tfidf_range toLowerCase text food)
    as [[E _]|[_ (q & -> & Hq0 & _)]]; [contradiction|].
  cbn [add]. unfold gtb, ltb.
  assert (E : Qltb 0 (q + 0.1) = true) by (apply Qltb_lt; Lqa.lra).
  rewrite E. exists (q + 0.1)%Q. split; [reflexivity|].
  split; [Lqa.lra|discriminate].
Qed.

(** X9. For an amount below 100 and a text with at least one word longer
    than 2 code units, the bonus of [food] lifts the best score to 0.1 or
    more: the amount-band fallback is not used, the category is not
    [other] and the confidence is at least 0.2. *)
Theorem small_amount_never_falls_back
        (toLowerCase : str -> str) (name : str) (amount : jsnum) (notes : str) :
  words_of toLowerCase (text_of toLowerCase name notes) <> [] ->
  ltb amount (Fin 100) = true ->
  uses_fallback toLowerCase name amount notes = false
  /\ category (categorize toLowerCase name amount notes) <> other
  /\ exists q, confidence (categorize toLowerCase name amount notes) = Fin q
               /\ (0.2 <= q <= 1)%Q.
Proof.
  intros Hw Ha.
  assert (Hok : best_ok 0.1 (best_match toLowerCase name amount notes)).
  { unfold best_match.
    change categories with ((food, keywords_of food) :: tl categories).
    cbn [fold_left]. apply fold_score_ok. now apply first_step_food. }
  destruct Hok as (b & Hb & Hlo & Hother).
  assert (Hf : ltb (Fin b) (Fin 0.1) = false)
    by (simpl; apply Qltb_ge; exact Hlo).
  unfold uses_fallback, categorize. cbn [category confidence].
  rewrite Hb, Hf. split; [reflexivity|]. split.
  - intros E. specialize (Hother E). Lqa.lra.
  - unfold mul, min2, ltb. destruct (Qltb 1.0 (b * 2)) eqn:E.
    + exists 1.0%Q. split; [reflexivity|]. split; Lqa.lra.
    + apply Qltb_ge in E. exists (b * 2)%Q. split; [reflexivity|].
      split; Lqa.lra.
Qed.

Lemma small_amount_witness :
  words_of ascii_lower (text_of ascii_lower (lit "Uber ride home") []) <> []
  /\ category (categorize ascii_lower (lit "Uber ride home") (Fin 22) [])
     <> other.
Proof.
  assert (Hw : words_of ascii_lower
                 (text_of ascii_lower (lit "Uber ride home") []) <> [])
    by (vm_compute; discriminate).
  split; [exact Hw|].
  exact (proj1 (proj2 (@small_amount_never_falls_back
                         ascii_lower (lit "Uber ride home") (Fin 22) []
                         Hw eq_refl))).
Defined.

(* ------------------------------------------------------------------ *)
(** ** The regression of the forecaster *)

Section Regression.
Import ExpenseForecaster.
Local Open Scope Q_scope.

Lemma qsum_ext (f g : nat -> Q) (n : nat) :
  (forall i, (i < n)%nat -> f i = g i) -> qsum f n = qsum g n.
Proof.
  induction n as [|n IH]; intros H; simpl; [reflexivity|].
  rewrite IH by (intros i Hi; apply H; lia).
  rewrite (H n) by lia. reflexivity.
Qed.

Lemma qsum_eqv (f g : nat -> Q) (n : nat) :
  (forall i, (i < n)%nat -> f i == g i) -> qsum f n == qsum g n.
Proof.
  induction n as [|n IH]; intros H; simpl; [reflexivity|].
  rewrite IH by (intros i Hi; apply H; lia).
  rewrite (H n) by lia. reflexivity.
Qed.

Lemma fold_add_snoc (l : list jsnum) (v : jsnum) :
  sum (l ++ [v]) = add (sum l) v.
Proof. unfold sum. now rewrite fold_left_app. Qed.

(** The sum of a list of finite numbers. *)
Lemma sum_fin (ys : list Q) :
  sum (map Fin ys) = Fin (qsum (fun i => nth i ys 0) (List.length ys)).
Proof.
  induction ys as [|y ys IH] using rev_ind; [reflexivity|].
  rewrite map_app. cbn [map].
  rewrite fold_add_snoc, IH, length_app, Nat.add_comm.
  cbn [List.length Nat.add qsum add].
  rewrite nth_middle. f_equal. f_equal.
  apply qsum_ext. intros i Hi. now rewrite app_nth1.
Qed.

Lemma sum_map_seq (f : nat -> Q) (n : nat) :
  sum (map (fun i => Fin (f i)) (seq 0 n)) = Fin (qsum f n).
Proof.
  induction n as [|n IH]; [reflexivity|].
  rewrite seq_S, map_app. cbn [map]. rewrite fold_add_snoc, IH. reflexivity.
Qed.

Lemma sum_x (n : nat) : sum (map of_nat (seq 0 n)) = Fin (qsum ix n).
Proof. exact (sum_map_seq ix n). Qed.

Lemma sum_xx (n : nat) :
  sum (map (fun val => mul val val) (map of_nat (seq 0 n)))
  = Fin (qsum (fun i => ix i * ix i) n).
Proof. rewrite map_map. exact (sum_map_seq (fun i => ix i * ix i) n). Qed.

Lemma combine_map_self {A B : Type} (f : A -> B) (l : list A) :
  combine (map f l) l = map (fun a => (f a, a)) l.
Proof. induction l; simpl; [reflexivity|now f_equal]. Qed.

Lemma sum_xy_fin (ys : list Q) :
  sum_xy (map of_nat (seq 0 (List.length ys))) (map Fin ys)
  = Fin (qsum (fun i => ix i * nth i ys 0) (List.length ys)).
Proof.
  unfold sum_xy. rewrite length_map, length_seq, combine_map_self.
  assert (H : forall n, (n <= List.length ys)%nat ->
            fold_left
              (fun sum vi => add sum (mul (fst vi) (nth (snd vi) (map Fin ys) NaN)))
              (map (fun a => (of_nat a, a)) (seq 0 n)) (Fin 0)
            = Fin (qsum (fun i => ix i * nth i ys 0) n)).
  { induction n as [|n IH]; intros Hn; [reflexivity|].
    rewrite seq_S, map_app, fold_left_app, IH by lia.
    cbn [map fold_left fst snd Nat.add].
    rewrite (nth_indep _ NaN (Fin 0)) by (rewrite length_map; lia).
    rewrite (map_nth Fin ys 0 n). reflexivity. }
  now apply H.
Qed.

Lemma qsum_ix (n : nat) : qsum ix n == inject_Z (sum_idx n).
Proof.
  induction n as [|n IH]; simpl; [reflexivity|].
  rewrite IH, inject_Z_plus. reflexivity.
Qed.

Lemma qsum_ix2 (n : nat) :
  qsum (fun i => ix i * ix i) n == inject_Z (sum_idx2 n).
Proof.
  induction n as [|n IH]; simpl; [reflexivity|].
  rewrite IH, inject_Z_plus, inject_Z_mult. reflexivity.
Qed.

Lemma sum_idx_closed (n : nat) :
  (2 * sum_idx n = Z.of_nat n * (Z.of_nat n - 1))%Z.
Proof.
  induction n as [|n IH]; [reflexivity|].
  cbn [sum_idx]. rewrite Nat2Z.inj_succ. lia.
Qed.

Lemma sum_idx2_closed (n : nat) :
  (6 * sum_idx2 n
   = (Z.of_nat n - 1) * Z.of_nat n * (2 * Z.of_nat n - 1))%Z.
Proof.
  induction n as [|n IH]; [reflexivity|].
  cbn [sum_idx2]. rewrite Nat2Z.inj_succ. lia.
Qed.

(** The divisor of the slope is positive from two points on. *)
Lemma divisor_pos (n : nat) :
  (2 <= n)%nat ->
  (0 < Z.of_nat n * sum_idx2 n - sum_idx n * sum_idx n)%Z.
Proof.
  intros Hn. pose proof (sum_idx_closed n) as H1.
  pose proof (sum_idx2_closed n) as H2.
  set (k := Z.of_nat n) in *. set (a := sum_idx n) in *.
  set (b := sum_idx2 n) in *.
  assert (Hk : (2 <= k)%Z) by (unfold k; lia).
  assert (H : (12 * (k * b - a * a) = k * k * (k - 1) * (k + 1))%Z).
  { replace (12 * (k * b - a * a))%Z
      with (2 * k * (6 * b) - 3 * ((2 * a) * (2 * a)))%Z by ring.
    rewrite H1, H2. ring. }
  assert (Hp : (0 < k * k * (k - 1) * (k + 1))%Z)
    by (repeat apply Z.mul_pos_pos; lia).
  lia.
Qed.

Lemma divisor_nonzero (n : nat) :
  (2 <= n)%nat ->
  0 < ix n * qsum (fun i => ix i * ix i) n + - (qsum ix n * qsum ix n).
Proof.
  intros Hn. rewrite qsum_ix, qsum_ix2. unfold ix.
  rewrite <- !inject_Z_mult, <- inject_Z_opp, <- inject_Z_plus.
  change 0 with (inject_Z 0). rewrite <- Zlt_Qlt.
  pose proof (divisor_pos Hn). lia.
Qed.

End Regression.

Section Forecast.
Import ExpenseForecaster.
Local Open Scope Q_scope.

Lemma pos_not_zero (d : Q) : 0 < d -> Qeq_bool d 0 = false.
Proof.
  intros Hd. destruct (Qeq_bool d 0) eqn:E; [|reflexivity].
  apply Qeq_bool_iff in E. rewrite E in Hd. discriminate Hd.
Qed.

Lemma ix_pos (n : nat) : (1 <= n)%nat -> 0 < ix n.
Proof. intros Hn. unfold ix, Qlt; simpl. lia. Qed.

Lemma max2_Qmax2 (x y : Q) : max2 (Fin x) (Fin y) = Fin (Qmax2 x y).
Proof. unfold max2, ltb, Qmax2. now destruct (Qltb x y). Qed.

(** The slope and the intercept of finite totals are finite. *)
Lemma slope_fin (ys : list Q) :
  (2 <= List.length ys)%nat ->
  let n := List.length ys in
  slope_of (map Fin ys)
  = Fin ((ix n * qsum (fun i => ix i * nth i ys 0) n
          + - (qsum ix n * qsum (fun i => nth i ys 0) n))
         / (ix n * qsum (fun i => ix i * ix i) n
            + - (qsum ix n * qsum ix n))).
Proof.
  intros Hn n. subst n. unfold slope_of. rewrite length_map.
  rewrite sum_x, sum_fin, sum_xy_fin, sum_xx.
  unfold of_nat. fold (ix (List.length ys)). cbn [mul sub add neg div].
  now rewrite (pos_not_zero (divisor_nonzero Hn)).
Qed.

Lemma intercept_fin (ys : list Q) (s : Q) :
  (1 <= List.length ys)%nat ->
  slope_of (map Fin ys) = Fin s ->
  let n := List.length ys in
  intercept_of (map Fin ys)
  = Fin ((qsum (fun i => nth i ys 0) n + - (s * qsum ix n)) / ix n).
Proof.
  intros Hn Hs n. subst n. unfold intercept_of. rewrite Hs, length_map.
  rewrite sum_x, sum_fin.
  unfold of_nat. fold (ix (List.length ys)). cbn [mul sub add neg div].
  now rewrite (pos_not_zero (ix_pos Hn)).
Qed.

Lemma predict_fin (ys : list Q) (x : nat) :
  (2 <= List.length ys)%nat ->
  exists s c p,
    slope_of (map Fin ys) = Fin s
    /\ intercept_of (map Fin ys) = Fin c
    /\ predict ys x = Fin p
    /\ 0 <= p
    /\ p == Qmax2 0 (s * ix x + c).
Proof.
  intros Hn. pose proof (slope_fin ys Hn) as Hs. cbv zeta in Hs.
  pose proof (@intercept_fin ys _ ltac:(lia) Hs) as Hc. cbv zeta in Hc.
  eexists. eexists. eexists (Qmax2 0 (_ * ix x + _)).
  split; [exact Hs|]. split; [exact Hc|].
  unfold predict. rewrite Hs, Hc.
  unfold of_nat. fold (ix x). cbn [mul add]. rewrite max2_Qmax2.
  split; [reflexivity|]. split; [apply Qmax2_ub|reflexivity].
Qed.

Lemma data_last (rows : list Bucket) :
  rows <> [] ->
  fst (last (map (fun exp => (new_Date (year exp) (month exp - 1),
                              Fin (total exp))) rows)
            (None, NaN))
  = new_Date (year (last rows bucket0)) (month (last rows bucket0) - 1).
Proof.
  induction rows as [|b rows IH]; intros Hne; [contradiction|].
  destruct rows as [|b' rows]; [reflexivity|]. apply IH. discriminate.
Qed.

(** The loop returns the points of all its turns when every date is valid,
    and throws otherwise. *)
Lemma loop_result (slope intercept : jsnum) (n : nat) (d : Date)
      (todo : list nat) :
  forecast_loop slope intercept n d todo
  = if forallb (fun i => match setMonth_plus d i with
                         | Some _ => true
                         | None => false
                         end) todo
    then Returns
           (map (fun i =>
                   {| fmonth := match setMonth_plus d i with
                                | Some k => ((k / 12)%Z, (k mod 12)%Z)
                                | None => (0, 0)%Z
                                end;
                      predictedAmount :=
                        max2 (Fin 0)
                             (add (mul slope (of_nat (n + i - 1)))
                                  intercept) |})
                todo)
    else Throws RangeError.
Proof.
  induction todo as [|i rest IH]; [reflexivity|].
  cbn [forecast_loop forallb map]. rewrite IH.
  destruct (setMonth_plus d i) as [k|]; cbn [toISOString andb];
    [|reflexivity].
  now destruct (forallb _ rest).
Qed.

Lemma new_Date_bucket (b : Bucket) :
  new_Date (year b) (month b - 1) = make_date (bucket_month b).
Proof. reflexivity. Qed.

Lemma in_time_range_bounds (k : Z) :
  in_time_range k = true <-> (-3261848 <= k <= 3309128)%Z.
Proof.
  unfold in_time_range. rewrite andb_true_iff, !Z.leb_le. lia.
Qed.

(** The dates of the loop are valid exactly when the first and the last
    are, and they are then the months that follow the last bucket. *)
Lemma loop_dates_valid (b : Bucket) (months : nat) :
  forallb (fun i => match setMonth_plus (new_Date (year b) (month b - 1)) i
                    with
                    | Some _ => true
                    | None => false
                    end) (seq 1 months)
  = forecast_dates_valid b months.
Proof.
  unfold forecast_dates_valid. rewrite new_Date_bucket.
  destruct months as [|m]; [reflexivity|].
  change (S m =? 0)%nat with false. cbn [orb].
  set (k := bucket_month b). unfold make_date.
  destruct (in_time_range k) eqn:Hk.
  - apply in_time_range_bounds in Hk. cbn [setMonth_plus]. unfold make_date.
    replace (-3261848 <=? k)%Z with true
      by (symmetry; apply Z.leb_le; lia).
    cbn [andb].
    destruct (k + Z.of_nat (S m) <=? 3309128)%Z eqn:E.
    + apply Z.leb_le in E. apply forallb_forall. intros i Hi.
      apply in_seq in Hi.
      replace (in_time_range (k + Z.of_nat i)) with true; [reflexivity|].
      symmetry. apply in_time_range_bounds. lia.
    + apply Z.leb_gt in E.
      destruct (forallb _ (seq 1 (S m))) eqn:F; [|reflexivity].
      rewrite forallb_forall in F.
      assert (Hin : In (S m) (seq 1 (S m))) by (apply in_seq; lia).
      specialize (F (S m) Hin).
      destruct (in_time_range (k + Z.of_nat (S m))) eqn:G;
        [|discriminate F].
      apply in_time_range_bounds in G. lia.
  - cbn [setMonth_plus seq forallb].
    destruct (-3261848 <=? k)%Z eqn:E1; [|reflexivity].
    destruct (k + Z.of_nat (S m) <=? 3309128)%Z eqn:E2; [|reflexivity].
    apply Z.leb_le in E1. apply Z.leb_le in E2.
    assert (H : in_time_range k = true)
      by (apply in_time_range_bounds; lia).
    rewrite H in Hk. discriminate Hk.
Qed.

Lemma loop_months (b : Bucket) (months : nat) :
  forecast_dates_valid b months = true ->
  forall i, In i (seq 1 months) ->
            match setMonth_plus (new_Date (year b) (month b - 1)) i with
            | Some k => ((k / 12)%Z, (k mod 12)%Z)
            | None => (0, 0)%Z
            end = month_after b i.
Proof.
  intros Hv i Hi. rewrite <- loop_dates_valid in Hv.
  rewrite forallb_forall in Hv. specialize (Hv i Hi).
  rewrite new_Date_bucket in *. unfold make_date in *.
  destruct (in_time_range (bucket_month b)); [|discriminate Hv].
  cbn [setMonth_plus] in *. unfold make_date in *.
  destruct (in_time_range (bucket_month b + Z.of_nat i));
    [reflexivity|discriminate Hv].
Qed.

(** The result of the forecaster when there are at least 3 buckets. *)
Lemma forecast_enough (rows : list Bucket) (months : nat) :
  (3 <= List.length rows)%nat ->
  forecastExpenses (Rows rows) months
  = if forecast_dates_valid (last rows bucket0) months
    then {| forecast :=
              map (fun i =>
                     {| fmonth := month_after (last rows bucket0) i;
                        predictedAmount :=
                          predict (map total rows)
                                  (List.length rows + i - 1) |})
                  (seq 1 months);
            confidence :=
              if (6 <=? List.length rows)%nat then high else medium |}
    else {| forecast := []; confidence := low |}.
Proof.
  intros Hn. unfold forecastExpenses.
  replace (List.length rows <? 3)%nat with false
    by (symmetry; apply Nat.ltb_ge; exact Hn).
  assert (Hne : rows <> []) by (intros ->; simpl in Hn; lia).
  rewrite loop_result, (data_last Hne), loop_dates_valid, length_map.
  destruct (forecast_dates_valid (last rows bucket0) months) eqn:Hv;
    [|reflexivity].
  rewrite !map_map. cbn [snd]. rewrite <- (map_map total Fin).
  replace (3 <=? List.length rows)%nat with true
    by (symmetry; apply Nat.leb_le; exact Hn).
  f_equal. apply map_ext_in. intros i Hi.
  now rewrite (@loop_months _ _ Hv i Hi).
Qed.

Lemma max0_eqv (p q : Q) :
  p == q -> eqv (max2 (Fin 0) (Fin p)) (max2 (Fin 0) (Fin q)).
Proof.
  intros E. rewrite !max2_Qmax2. unfold Qmax2. simpl.
  destruct (Qltb 0 p) eqn:E1; destruct (Qltb 0 q) eqn:E2;
    try exact E; try reflexivity.
  - apply Qltb_lt in E1. apply Qltb_ge in E2. rewrite E in E1.
    exfalso. exact (Qlt_not_le _ _ E1 E2).
  - apply Qltb_ge in E1. apply Qltb_lt in E2. rewrite E in E1.
    exfalso. exact (Qlt_not_le _ _ E2 E1).
Qed.

(** The prediction that follows six totals is the value of their
    least-squares line at the index 6. *)
Lemma six_prediction (y0 y1 y2 y3 y4 y5 : Q) :
  eqv (predict [y0; y1; y2; y3; y4; y5] 6)
      (max2 (Fin 0) (Fin (line_at_six y0 y1 y2 y3 y4 y5))).
Proof.
  unfold predict, intercept_of.
  cbv [slope_of map List.length seq sum sum_xy combine fold_left nth fst snd
       of_nat Z.of_nat Pos.of_succ_nat Pos.succ inject_Z mul add sub neg
       div].
  decide_zero_test. decide_zero_test.
  apply max0_eqv. unfold line_at_six. field.
Qed.

Lemma nth_error_map_seq {A : Type} (g : nat -> A) (n : nat) :
  forall s k a,
    nth_error (map g (seq s n)) k = Some a -> a = g (s + k)%nat /\ (k < n)%nat.
Proof.
  induction n as [|n IH]; intros s k a H.
  - destruct k; discriminate H.
  - destruct k as [|k]; simpl in H.
    + inversion H; subst. rewrite Nat.add_0_r. split; [reflexivity|lia].
    + apply IH in H. destruct H as [-> Hk].
      rewrite Nat.add_succ_r. split; [reflexivity|lia].
Qed.

End Forecast.

(** X13. With at least 3 buckets: when the dates of the forecast are valid,
    the forecast has exactly [months] points, each predicted amount is a
    finite number that is 0 or more, and the confidence is [high] from 6
    buckets on and [medium] below; when a date is not valid, [toISOString]
    throws, and the result is the empty forecast with the confidence
    [low]. *)
Theorem forecast_well_formed
        (rows : list ExpenseForecaster.Bucket) (months : nat) :
  3 <= List.length rows ->
  let r := ExpenseForecaster.forecastExpenses (Rows rows) months in
  if forecast_dates_valid (last rows bucket0) months
  then List.length (ExpenseForecaster.forecast r) = months
       /\ ExpenseForecaster.confidence r
          = (if 6 <=? List.length rows
             then ExpenseForecaster.high else ExpenseForecaster.medium)
       /\ Forall (fun pt =>
                    exists p, ExpenseForecaster.predictedAmount pt = Fin p
                              /\ (0 <= p)%Q)
                 (ExpenseForecaster.forecast r)
  else r = {| ExpenseForecaster.forecast := [];
              ExpenseForecaster.confidence := ExpenseForecaster.low |}.
Proof.
  intros Hn r. subst r. rewrite forecast_enough by exact Hn.
  destruct (forecast_dates_valid (last rows bucket0) months);
    [|reflexivity].
  cbn [ExpenseForecaster.forecast ExpenseForecaster.confidence].
  split; [now rewrite length_map, length_seq|]. split; [reflexivity|].
  apply Forall_forall. intros pt Hpt. apply in_map_iff in Hpt.
  destruct Hpt as (i & <- & _).
  cbn [ExpenseForecaster.predictedAmount].
  destruct (@predict_fin (map ExpenseForecaster.total rows)
                         (List.length rows + i - 1))
    as (s & c & p & _ & _ & Hp & Hp0 & _);
    [rewrite length_map; lia|].
  now exists p.
Qed.

Lemma forecast_well_formed_witness :
  List.length
    (ExpenseForecaster.forecast
       (ExpenseForecaster.forecastExpenses (Rows spike_rows) 3)) = 3
  /\ ExpenseForecaster.forecastExpenses (Rows late_rows) 3
     = {| ExpenseForecaster.forecast := [];
          ExpenseForecaster.confidence := ExpenseForecaster.low |}.
Proof.
  split.
  - exact (proj1 (@forecast_well_formed spike_rows 3
                    (le_S _ _ (le_S _ _ (le_S _ _ (le_n 3)))))).
  - exact (@forecast_well_formed late_rows 3
             (le_S _ _ (le_S _ _ (le_S _ _ (le_n 3))))).
Defined.

(** C3, amended. For 6 monthly buckets (with increasing totals or not) and
    a horizon of at least one month: when the dates of the forecast are
    valid, the confidence is [high] and the first predicted amount is the
    value at the index 6 of the least-squares line through the six totals,
    [(10 y5 + 7 y4 + 4 y3 + y2 - 2 y1 - 5 y0) / 15], or 0 when that value
    is negative; when a date is not valid the forecast is empty and the
    confidence is [low]. *)
Theorem C3_six_month_forecast
        (rows : list ExpenseForecaster.Bucket) (months : nat) :
  List.length rows = 6 ->
  1 <= months ->
  let r := ExpenseForecaster.forecastExpenses (Rows rows) months in
  let y := fun i => ExpenseForecaster.total (nth i rows bucket0) in
  if forecast_dates_valid (last rows bucket0) months
  then ExpenseForecaster.confidence r = ExpenseForecaster.high
       /\ List.length (ExpenseForecaster.forecast r) = months
       /\ exists pt,
           hd_error (ExpenseForecaster.forecast r) = Some pt
           /\ eqv (ExpenseForecaster.predictedAmount pt)
                  (max2 (Fin 0)
                        (Fin (line_at_six (y 0) (y 1) (y 2) (y 3) (y 4)
                                          (y 5))))
  else r = {| ExpenseForecaster.forecast := [];
              ExpenseForecaster.confidence := ExpenseForecaster.low |}.
Proof.
  intros Hlen Hm r y. subst r.
  rewrite forecast_enough by lia.
  destruct (forecast_dates_valid (last rows bucket0) months);
    [|reflexivity].
  cbn [ExpenseForecaster.forecast ExpenseForecaster.confidence].
  rewrite Hlen. split; [reflexivity|].
  split; [now rewrite length_map, length_seq|].
  destruct months as [|months]; [lia|].
  eexists. split; [reflexivity|].
  cbn [ExpenseForecaster.predictedAmount].
  destruct rows as [|b0 [|b1 [|b2 [|b3 [|b4 [|b5 [|b6 rows]]]]]]];
    try discriminate Hlen.
  apply six_prediction.
Qed.

Lemma C3_witness :
  List.length spike_rows = 6
  /\ forecast_dates_valid (last spike_rows bucket0) 3 = true
  /\ ExpenseForecaster.confidence
       (ExpenseForecaster.forecastExpenses (Rows spike_rows) 3)
     = ExpenseForecaster.high
  /\ ExpenseForecaster.forecastExpenses (Rows late_rows) 3
     = {| ExpenseForecaster.forecast := [];
          ExpenseForecaster.confidence := ExpenseForecaster.low |}.
Proof.
  split; [reflexivity|]. split; [reflexivity|]. split.
  - exact (proj1 (@C3_six_month_forecast spike_rows 3 eq_refl
                    (le_S _ _ (le_S _ _ (le_n 1))))).
  - exact (@C3_six_month_forecast late_rows 3 eq_refl
             (le_S _ _ (le_S _ _ (le_n 1)))).
Defined.

Section LinearTrend.
Import ExpenseForecaster.
Local Open Scope Q_scope.

Lemma ix_succ (n : nat) : ix (S n) == ix n + 1.
Proof. apply inject_Z_succ. Qed.

Lemma qsum_linear (a b : Q) (n : nat) :
  qsum (fun i => a + b * ix i) n == ix n * a + b * qsum ix n.
Proof.
  induction n as [|n IH]; [unfold ix; simpl; ring|].
  cbn [qsum]. rewrite IH, ix_succ. ring.
Qed.

Lemma qsum_linear_x (a b : Q) (n : nat) :
  qsum (fun i => ix i * (a + b * ix i)) n
  == a * qsum ix n + b * qsum (fun i => ix i * ix i) n.
Proof.
  induction n as [|n IH]; [simpl; ring|].
  cbn [qsum]. rewrite IH. ring.
Qed.

Variables (ys : list Q) (a b : Q).
Hypothesis enough : (2 <= List.length ys)%nat.
Hypothesis linear :
  forall i, (i < List.length ys)%nat -> nth i ys 0 == a + b * ix i.

Lemma linear_slope (s : Q) : slope_of (map Fin ys) = Fin s -> s == b.
Proof.
  rewrite (slope_fin ys enough). cbv zeta. intros H. inversion H. clear H.
  pose proof (divisor_nonzero enough) as HD.
  set (n := List.length ys) in *.
  set (D := ix n * qsum (fun i => ix i * ix i) n + - (qsum ix n * qsum ix n))
    in *.
  assert (Hy : qsum (fun i => nth i ys 0) n == ix n * a + b * qsum ix n).
  { rewrite <- qsum_linear. apply qsum_eqv. exact linear. }
  assert (Hxy : qsum (fun i => ix i * nth i ys 0) n
                == a * qsum ix n + b * qsum (fun i => ix i * ix i) n).
  { rewrite <- qsum_linear_x. apply qsum_eqv. intros i Hi.
    now rewrite (linear Hi). }
  rewrite Hy, Hxy.
  assert (Hnum : ix n * (a * qsum ix n + b * qsum (fun i => ix i * ix i) n)
                 + - (qsum ix n * (ix n * a + b * qsum ix n))
                 == b * D) by (unfold D; ring).
  rewrite Hnum. apply Qdiv_mult_l.
  intros E. rewrite E in HD. discriminate HD.
Qed.

Lemma linear_intercept (s c : Q) :
  slope_of (map Fin ys) = Fin s ->
  intercept_of (map Fin ys) = Fin c -> c == a.
Proof.
  intros Hs Hc. pose proof (linear_slope Hs) as Hb.
  rewrite (@intercept_fin ys s) in Hc by (lia || exact Hs).
  cbv zeta in Hc. inversion Hc. clear Hc.
  set (n := List.length ys) in *.
  assert (Hn : 0 < ix n) by (apply ix_pos; unfold n; lia).
  assert (Hy : qsum (fun i => nth i ys 0) n == ix n * a + b * qsum ix n).
  { rewrite <- qsum_linear. apply qsum_eqv. exact linear. }
  rewrite Hy, Hb.
  assert (Hnum : ix n * a + b * qsum ix n + - (b * qsum ix n) == a * ix n)
    by ring.
  rewrite Hnum. apply Qdiv_mult_l.
  intros E. rewrite E in Hn. discriminate Hn.
Qed.

Lemma linear_predict (x : nat) :
  eqv (predict ys x) (Fin (Qmax2 0 (a + b * ix x))).
Proof.
  destruct (predict_fin ys x enough) as (s & c & p & Hs & Hc & -> & _ & Hp).
  pose proof (linear_slope Hs) as Hb.
  pose proof (linear_intercept Hs Hc) as Ha.
  simpl. rewrite Hp. unfold Qmax2.
  assert (E : s * ix x + c == a + b * ix x) by (rewrite Hb, Ha; ring).
  destruct (Qltb 0 (s * ix x + c)) eqn:E1;
    destruct (Qltb 0 (a + b * ix x)) eqn:E2; try exact E; try reflexivity.
  - apply Qltb_lt in E1. apply Qltb_ge in E2. rewrite E in E1.
    exfalso. exact (Qlt_not_le _ _ E1 E2).
  - apply Qltb_ge in E1. apply Qltb_lt in E2. rewrite E in E1.
    exfalso. exact (Qlt_not_le _ _ E2 E1).
Qed.

End LinearTrend.

(** X14. When the totals of at least 3 buckets lie on a line, the total of
    rank [i] being [a + b * i], the regression recovers the line: the point
    of rank [k] of the forecast is the value of the line at [n + k], that
    is [a + b * (n + k)], or 0 when that value is negative.  With [b = 0]
    a constant total [a >= 0] is forecast unchanged. *)
Theorem linear_trend_is_extrapolated
        (rows : list ExpenseForecaster.Bucket) (months : nat) (a b : Q) :
  3 <= List.length rows ->
  (forall i, i < List.length rows ->
             (ExpenseForecaster.total (nth i rows bucket0)
              == a + b * ix i)%Q) ->
  forall k pt,
    nth_error (ExpenseForecaster.forecast
                 (ExpenseForecaster.forecastExpenses (Rows rows) months)) k
    = Some pt ->
    eqv (ExpenseForecaster.predictedAmount pt)
        (max2 (Fin 0) (Fin (a + b * ix (List.length rows + k)))).
Proof.
  intros Hn Hlin k pt. rewrite forecast_enough by exact Hn.
  destruct (forecast_dates_valid (last rows bucket0) months);
    [|now destruct k].
  cbn [ExpenseForecaster.forecast]. intros Hk.
  apply nth_error_map_seq in Hk. destruct Hk as [-> _].
  cbn [ExpenseForecaster.predictedAmount].
  replace (List.length rows + (1 + k) - 1) with (List.length rows + k) by lia.
  rewrite max2_Qmax2.
  rewrite <- (length_map ExpenseForecaster.total rows).
  apply linear_predict.
  - rewrite length_map. lia.
  - intros i Hi. rewrite length_map in Hi.
    change 0%Q with (ExpenseForecaster.total bucket0).
    rewrite map_nth. now apply Hlin.
Qed.

Lemma linear_trend_witness :
  let rows := [ bucket 9 10; bucket 10 12; bucket 11 14 ] in
  exists pt,
    nth_error (ExpenseForecaster.forecast
                 (ExpenseForecaster.forecastExpenses (Rows rows) 3)) 0
    = Some pt
    /\ eqv (ExpenseForecaster.predictedAmount pt) (Fin 16).
Proof.
  intros rows.
  assert (Hlin : forall i, i < List.length rows ->
                           (ExpenseForecaster.total (nth i rows bucket0)
                            == 10 + 2 * ix i)%Q).
  { intros i Hi. destruct i as [|[|[|i]]]; [reflexivity..|simpl in Hi; lia]. }
  eexists. split; [vm_compute; reflexivity|].
  exact (@linear_trend_is_extrapolated rows 3 10 2
           (le_n 3) Hlin 0 _ eq_refl).
Defined.

(* ------------------------------------------------------------------ *)
(** ** The expense saved for a receipt *)

Section Routes.
Import ExpenseRoutes.
Local Open Scope Q_scope.

Lemma eqv_refl (a : jsnum) : eqv a a.
Proof. destruct a; simpl; auto. reflexivity. Qed.

Lemma min2_fin (x y : Q) :
  min2 (Fin x) (Fin y) = Fin (if Qltb y x then y else x).
Proof. unfold min2, ltb. now destruct (Qltb y x). Qed.

Lemma clamp_range (a : jsnum) :
  exists r, clampAmount a = Fin r /\ 0 <= r <= 999999.99.
Proof.
  unfold clampAmount.
  assert (H : exists m, max2 (or_zero a) (Fin 0) = Fin m /\ 0 <= m
              \/ max2 (or_zero a) (Fin 0) = PosInf).
  { destruct a as [| |q|]; simpl.
    - exists 0. left. split; [reflexivity|apply Qle_refl].
    - exists 0. left. split; [reflexivity|apply Qle_refl].
    - destruct (Qeq_bool q 0).
      + exists 0. left. split; [reflexivity|apply Qle_refl].
      + rewrite max2_Qmax2. eexists. left. split; [reflexivity|].
        apply Qmax2_ub.
    - exists 0. now right. }
  destruct H as (m & [[-> Hm]| ->]).
  - rewrite min2_fin. eexists. split; [reflexivity|].
    destruct (Qltb 999999.99 m) eqn:E.
    + split; [discriminate|apply Qle_refl].
    + apply Qltb_ge in E. split; assumption.
  - exists 999999.99. split; [reflexivity|]. split; [discriminate|apply Qle_refl].
Qed.

Lemma clamp_nonneg (q : Q) :
  0 <= q -> eqv (clampAmount (Fin q)) (min2 (Fin q) (Fin 999999.99)).
Proof.
  intros Hq. unfold clampAmount, or_zero.
  destruct (Qeq_bool q 0) eqn:E0.
  - apply Qeq_bool_iff in E0. rewrite min2_fin.
    assert (E : Qltb 999999.99 q = false)
      by (apply Qltb_ge; rewrite E0; discriminate).
    rewrite E. simpl. now symmetry.
  - rewrite max2_Qmax2. unfold Qmax2.
    assert (E : Qltb q 0 = false) by (apply Qltb_ge; exact Hq).
    rewrite E. apply eqv_refl.
Qed.

Lemma join_length (sep : str) (m : nat) (l : list str) :
  Forall (fun s => (List.length s <= m)%nat) l ->
  (List.length (join sep l)
   <= List.length l * m + (List.length l - 1) * List.length sep)%nat.
Proof.
  induction 1 as [|s l Hs Hl IH]; [simpl; lia|].
  destruct l as [|s' l]; [simpl; lia|].
  change (join sep (s :: s' :: l)) with (s ++ sep ++ join sep (s' :: l)).
  rewrite !length_app. cbn [List.length Nat.sub] in *.
  rewrite Nat.sub_0_r in *. nia.
Qed.

Lemma item_kept_short (line : str) :
  item_kept line = true -> (List.length line <= 99)%nat.
Proof.
  unfold item_kept. rewrite !andb_true_iff. intros [_ H].
  apply Nat.ltb_lt in H. lia.
Qed.

Lemma items_short (toLowerCase : str -> str) (today text : str) :
  Forall (fun s => (List.length s <= 99)%nat)
         (items (parseReceiptData toLowerCase today text))
  /\ (List.length (items (parseReceiptData toLowerCase today text)) <= 10)%nat.
Proof.
  unfold parseReceiptData; cbn [items]. rewrite collect_items_filter.
  split; [|apply firstn_le_length].
  apply Forall_forall. intros s Hs. apply in_firstn in Hs.
  apply filter_In in Hs. now apply item_kept_short.
Qed.

End Routes.

(** X15. The amount that the routes store is always a finite number from 0
    to 999999.99, the bounds of the schema, whatever number comes in
    ([NaN] and the infinities included). *)
Theorem clamped_amount_in_schema_range (amount : jsnum) :
  exists r, ExpenseRoutes.clampAmount amount = Fin r
            /\ (0 <= r <= 999999.99)%Q.
Proof. apply clamp_range. Qed.

(** X16. For every receipt text the document that the upload route builds
    has a non-empty name (the merchant), the category [other], an amount
    that is the parsed amount capped at 999999.99, and notes of at most
    1008 code units (ten items of 99 joined by a comma and a space); ten
    lines of 99 letters reach that bound, above the 1000 of the schema. *)
Theorem receipt_expense_fields
        (toLowerCase : str -> str) (today : str) (user : N) (path : str) :
  (forall text,
      let ocr := parseReceiptData toLowerCase today text in
      let doc := ExpenseRoutes.receiptExpense user path ocr in
      ExpenseRoutes.name doc = merchant ocr
      /\ ExpenseRoutes.name doc <> []
      /\ ExpenseRoutes.doc_category doc = other
      /\ eqv (ExpenseRoutes.doc_amount doc)
             (min2 (amount ocr) (Fin 999999.99))
      /\ List.length (ExpenseRoutes.notes doc) <= 1008)
  /\ (let text := ExpenseRoutes.join [10%N] (repeat (repeat 97%N 99) 10) in
      List.length
        (ExpenseRoutes.notes
           (ExpenseRoutes.receiptExpense
              user path (parseReceiptData toLowerCase today text)))
      = 1008).
Proof.
  split.
  - intros text ocr doc. subst doc.
    cbn [ExpenseRoutes.receiptExpense ExpenseRoutes.name
         ExpenseRoutes.doc_category ExpenseRoutes.doc_amount
         ExpenseRoutes.notes].
    assert (Hm : merchant ocr <> []).
    { subst ocr. cbn [merchant parseReceiptData].
      apply or_else_nonempty. discriminate. }
    assert (Hname : or_else (merchant ocr) (lit "Unknown Merchant")
                    = merchant ocr).
    { destruct (or_else_cases (merchant ocr) (lit "Unknown Merchant"))
        as [[E _]|[_ E]]; [contradiction|exact E]. }
    rewrite Hname. split; [reflexivity|]. split; [exact Hm|].
    split; [reflexivity|]. split.
    + subst ocr. rewrite amount_eq.
      destruct (amount_of_nonneg (token_values_nonneg text))
        as [->|(q & -> & Hq)]; [reflexivity|].
      now apply clamp_nonneg.
    + destruct (items_short toLowerCase today text) as [Hshort Hlen].
      fold ocr in Hshort, Hlen.
      pose proof (join_length (lit ", ") Hshort) as H.
      change (List.length (lit ", ")) with 2 in H. lia.
  - intros text. unfold parseReceiptData.
    cbn [ExpenseRoutes.receiptExpense ExpenseRoutes.notes items].
    vm_compute. reflexivity.
Qed.

(** X17. An amount that is already within the bounds of the schema, from 0
    to 999999.99, is stored unchanged. *)
Theorem clamp_keeps_valid_amounts (x : Q) :
  (0 <= x <= 999999.99)%Q ->
  eqv (ExpenseRoutes.clampAmount (Fin x)) (Fin x).
Proof.
  intros [Hlo Hhi].
  assert (E : min2 (Fin x) (Fin 999999.99) = Fin x).
  { rewrite min2_fin.
    assert (H : Qltb 999999.99 x = false) by (apply Qltb_ge; exact Hhi).
    now rewrite H. }
  rewrite <- E at 2. now apply clamp_nonneg.
Qed.

Lemma clamp_keeps_valid_amounts_witness :
  eqv (ExpenseRoutes.clampAmount (Fin 45.00)) (Fin 45.00).
Proof.
  apply clamp_keeps_valid_amounts. split; discriminate.
Defined.

(* ------------------------------------------------------------------ *)
(** ** The pages of the expense list *)

(** X18. For a positive page size and a count that is not negative,
    [pages] is the least number of pages that hold [total] rows: it is an
    integer [p] such that the query of page [p] skips fewer than [total]
    rows and the query of page [p + 1] skips them all. *)
Theorem pages_hold_all_rows (page limit total : Z) :
  (0 < limit)%Z -> (0 <= total)%Z ->
  exists p,
    ExpenseRoutes.pages (ExpenseRoutes.pagination_of page limit total)
    = Fin (inject_Z p)
    /\ (ExpenseRoutes.skip_of p limit < total)%Z
    /\ (total <= ExpenseRoutes.skip_of (p + 1) limit)%Z.
Proof.
  intros Hl Ht. unfold ExpenseRoutes.pagination_of.
  cbn [ExpenseRoutes.pages]. unfold div.
  assert (HlQ : (0 < inject_Z limit)%Q)
    by (change 0%Q with (inject_Z 0); now rewrite <- Zlt_Qlt).
  rewrite (pos_not_zero HlQ). cbn [ExpenseRoutes.ceil].
  set (x := (inject_Z total / inject_Z limit)%Q).
  exists (Qceiling x). split; [reflexivity|].
  assert (Hx : (x * inject_Z limit == inject_Z total)%Q).
  { unfold x. rewrite Qmult_comm. apply Qmult_div_r.
    intros E. rewrite E in HlQ. discriminate HlQ. }
  unfold ExpenseRoutes.skip_of. split.
  - rewrite Zlt_Qlt, inject_Z_mult, <- Hx.
    apply Qmult_lt_compat_r; [exact HlQ|apply Qceiling_lt].
  - replace (Qceiling x + 1 - 1)%Z with (Qceiling x) by lia.
    rewrite Zle_Qle, inject_Z_mult, <- Hx.
    apply Qmult_le_compat_r; [apply Qle_ceiling|now apply Qlt_le_weak].
Qed.

Lemma pages_hold_all_rows_witness :
  ExpenseRoutes.pages (ExpenseRoutes.pagination_of 1 50 101)
  = Fin (inject_Z 3).
Proof.
  destruct (@pages_hold_all_rows 1 50 101 eq_refl)
    as (p & Hp & Hlo & Hhi); [discriminate|].
  unfold ExpenseRoutes.skip_of in Hlo, Hhi.
  replace 3%Z with p by lia. exact Hp.
Defined.

(* ------------------------------------------------------------------ *)
(** ** The anomaly detector in binary64 arithmetic *)

Import PrimFloat SpecFloat FloatOps FloatAxioms.

Section Binary64.
Import AnomalyDetector64.
Local Open Scope float_scope.








End Binary64.





